(** * redisdriver: lease-based node membership on a Redis store

    A shallow embedding of [redisdriver.go].  The driver object is a record,
    every method is a function that threads the driver and the surrounding
    world (the Redis server reached through the client, the cancellation
    contexts, the log and the goroutines launched) explicitly.  A Go panic
    is a result of its own, [Panicked]. *)

From stdpp Require Import base gmap strings list.
From Stdlib Require Import ZArith.

(** ** Go values used by the driver *)

(** An [error] value; [errors_New] is [errors.New].  Errors reported by the
    store are values of the same type. *)
Inductive error : Type :=
| errors_New (text : string).

#[global] Instance error_eq_dec : EqDecision error.
Proof. solve_decision. Defined.

(** The result of a call that may panic instead of returning. *)
Inductive outcome (A : Type) : Type :=
| Returned (a : A)
| Panicked (reason : string).
Arguments Returned {A} a.
Arguments Panicked {A} reason.

Definition nil_dereference : string :=
  "invalid memory address or nil pointer dereference".
Definition interface_conversion : string :=
  "interface conversion".
Definition non_positive_interval : string :=
  "non-positive interval for NewTicker".

(** [time.Duration] counts nanoseconds in an int64. *)
Definition Second : Z := 1000000000.
Definition redisDefaultTimeout : Z := 5 * Second.

(** [dlog.Logger]: the standard logger installed by [NewDriver], or a sink
    supplied by the caller. *)
Inductive Logger : Type :=
| StdLogger
| UserLogger (sink : nat).

#[global] Instance Logger_eq_dec : EqDecision Logger.
Proof. solve_decision. Defined.

(** One call of [Errorf]: the sink, the format string and its argument. *)
Record LogEntry : Type := {
  log_sink : Logger;
  log_format : string;
  log_arg : error;
}.

(** Package [commons]: the option values handed to [Init] and [WithOption].
    [Option] is an interface there, so besides the two option structs a
    value of any other type can implement it; [OtherOption] is such a value,
    carrying what its [Type()] method returns.  [NilOption] is the nil
    interface value, or a nil pointer whose method needs the value behind
    it: the call of [Type()] on it panics. *)
Module commons.

Inductive Option : Type :=
| TimeoutOption (Timeout : Z)
| LoggerOption (Logger_ : Logger)
| OtherOption (kind : Z)
| NilOption.

End commons.

(** ** The Redis client *)

(** The commands the driver sends. *)
Inductive Cmd : Type :=
| CmdSetEx (key value : string) (expiration : Z)
| CmdDel (keys : list string).

#[global] Instance Cmd_eq_dec : EqDecision Cmd.
Proof. solve_decision. Defined.

(** What the server answers to one SCAN command of an iteration: a page of
    keys, or a failure. *)
Inductive ScanReply : Type :=
| ScanPage (keys : list string)
| ScanFail (e : error).

(** ** Heartbeat goroutines *)

(** The control state of one [heartBeat] goroutine.  In [HBSelect] the
    goroutine is blocked in its [select], on the ticker it created and on
    the [Done] channel of the context it read from the driver when it
    entered the [select]. *)
Inductive HeartBeat : Type :=
| HBSpawned
| HBSelect (period : Z) (done : nat)
| HBReturned
| HBPanicked (reason : string).

#[global] Instance HeartBeat_eq_dec : EqDecision HeartBeat.
Proof. solve_decision. Defined.

(** ** The world around the driver *)

Record World : Type := {
  (** live keys of the server: value and time to live in seconds *)
  kv : gmap string (string * Z);
  (** fate of the coming write commands, in order: [Some e] fails with [e];
      once the list is used up every command succeeds *)
  faults : list (option error);
  (** every write command sent so far, oldest first *)
  cmds : list Cmd;
  (** the replies of the server to the successive SCAN commands of a scan
      with the given pattern, up to the reply that carries cursor 0; a scan
      the server never ends has no list here *)
  scans : string -> list ScanReply;
  (** contexts whose cancel function has been called *)
  cancelled : gset nat;
  (** the next context [context.WithCancel] hands out *)
  next_ctx : nat;
  (** [Errorf] calls so far, oldest first *)
  logs : list LogEntry;
  (** the goroutines started by [go rd.heartBeat()], oldest first *)
  goroutines : list HeartBeat;
}.

Definition set_redis (k : gmap string (string * Z)) (f : list (option error))
    (cs : list Cmd) (w : World) : World :=
  {| kv := k; faults := f; cmds := cs; scans := scans w;
     cancelled := cancelled w; next_ctx := next_ctx w; logs := logs w;
     goroutines := goroutines w |}.

Definition set_contexts (cs : gset nat) (n : nat) (w : World) : World :=
  {| kv := kv w; faults := faults w; cmds := cmds w; scans := scans w;
     cancelled := cs; next_ctx := n; logs := logs w;
     goroutines := goroutines w |}.

Definition set_logs (l : list LogEntry) (w : World) : World :=
  {| kv := kv w; faults := faults w; cmds := cmds w; scans := scans w;
     cancelled := cancelled w; next_ctx := next_ctx w; logs := l;
     goroutines := goroutines w |}.

Definition set_goroutines (g : list HeartBeat) (w : World) : World :=
  {| kv := kv w; faults := faults w; cmds := cmds w; scans := scans w;
     cancelled := cancelled w; next_ctx := next_ctx w; logs := logs w;
     goroutines := g |}.

(** The fate of the next write command and the faults left after it. *)
Definition next_fault (w : World) : option error * list (option error) :=
  match faults w with
  | [] => (None, [])
  | f :: fs => (f, fs)
  end.

(** [formatSec] of the client library: the seconds a duration is sent as.
    The division truncates, and a positive duration below one second is
    sent as one second. *)
Definition formatSec (dur : Z) : Z :=
  if decide (0 < dur /\ dur < Second)%Z then 1%Z else Z.quot dur Second.

(** [c.SetEx(ctx, key, value, expiration).Err()]: the client sends
    SETEX key [formatSec expiration] value, and when the command succeeds
    the key holds [value] with that many seconds to live.  [cmds] records
    the call with the arguments the driver gave.  Whether the server takes
    the command, whatever its reason to turn it down, is the fault list's
    to say. *)
Definition SetEx (key value : string) (expiration : Z) (w : World)
    : option error * World :=
  let sent := cmds w ++ [CmdSetEx key value expiration] in
  match next_fault w with
  | (Some e, fs) => (Some e, set_redis (kv w) fs sent w)
  | (None, fs) =>
      (None,
       set_redis (<[key := (value, formatSec expiration)]> (kv w)) fs sent w)
  end.

(** [c.Del(ctx, keys...).Err()]: removing an absent key is not an error. *)
Definition Del (keys : list string) (w : World) : option error * World :=
  let sent := cmds w ++ [CmdDel keys] in
  match next_fault w with
  | (Some e, fs) => (Some e, set_redis (kv w) fs sent w)
  | (None, fs) =>
      (None, set_redis (foldr delete (kv w) keys) fs sent w)
  end.

(** [logger.Errorf(format, err)]. *)
Definition Errorf (l : Logger) (format : string) (e : error) (w : World)
    : World :=
  set_logs (logs w ++ [{| log_sink := l; log_format := format;
                          log_arg := e |}]) w.

(** [context.WithCancel(context.TODO())]: a context never seen before,
    with its cancel function. *)
Definition WithCancel (w : World) : nat * World :=
  (next_ctx w, set_contexts (cancelled w) (S (next_ctx w)) w).

(** Calling a cancel function; calling it again changes nothing. *)
Definition cancel (cx : nat) (w : World) : World :=
  set_contexts ({[cx]} ∪ cancelled w) (next_ctx w) w.

(** The context argument of the public methods. *)
Inductive Context : Type :=
| Background
| TODO
| CancelCtx (id : nat).

(** ** The driver *)

Record RedisDriver : Type := {
  c : nat;
  serviceName : string;
  nodeID : string;
  timeout : Z;
  logger : Logger;
  started : bool;
  runtimeCtx : option nat;
  runtimeCancel : option nat;
}.

Definition set_timeout (t : Z) (rd : RedisDriver) : RedisDriver :=
  {| c := c rd; serviceName := serviceName rd; nodeID := nodeID rd;
     timeout := t; logger := logger rd; started := started rd;
     runtimeCtx := runtimeCtx rd; runtimeCancel := runtimeCancel rd |}.

Definition set_logger (l : Logger) (rd : RedisDriver) : RedisDriver :=
  {| c := c rd; serviceName := serviceName rd; nodeID := nodeID rd;
     timeout := timeout rd; logger := l; started := started rd;
     runtimeCtx := runtimeCtx rd; runtimeCancel := runtimeCancel rd |}.

Definition set_identity (name id : string) (rd : RedisDriver) : RedisDriver :=
  {| c := c rd; serviceName := name; nodeID := id;
     timeout := timeout rd; logger := logger rd; started := started rd;
     runtimeCtx := runtimeCtx rd; runtimeCancel := runtimeCancel rd |}.

Definition set_started (b : bool) (rd : RedisDriver) : RedisDriver :=
  {| c := c rd; serviceName := serviceName rd; nodeID := nodeID rd;
     timeout := timeout rd; logger := logger rd; started := b;
     runtimeCtx := runtimeCtx rd; runtimeCancel := runtimeCancel rd |}.

Definition set_runtime (cx : option nat) (cf : option nat) (rd : RedisDriver)
    : RedisDriver :=
  {| c := c rd; serviceName := serviceName rd; nodeID := nodeID rd;
     timeout := timeout rd; logger := logger rd; started := started rd;
     runtimeCtx := cx; runtimeCancel := cf |}.

(** [NewDriver(redisClient)]. *)
Definition NewDriver (redisClient : nat) : RedisDriver :=
  {| c := redisClient; serviceName := ""; nodeID := "";
     timeout := redisDefaultTimeout; logger := StdLogger; started := false;
     runtimeCtx := None; runtimeCancel := None |}.

Definition NodeID (rd : RedisDriver) : string := nodeID rd.

(** [registerServiceNode]. *)
Definition registerServiceNode (rd : RedisDriver) (w : World)
    : option error * World :=
  SetEx (nodeID rd) (nodeID rd) (timeout rd) w.

Definition ErrStarted : error := errors_New "this driver is started".

(** [go rd.heartBeat()]. *)
Definition go_heartBeat (w : World) : World :=
  set_goroutines (goroutines w ++ [HBSpawned]) w.

(** [Start(ctx)].  The lock makes the body atomic. *)
Definition Start (rd : RedisDriver) (w : World) (ctx : Context)
    : RedisDriver * World * option error :=
  if started rd then (rd, w, Some ErrStarted)
  else
    let '(cx, w1) := WithCancel w in
    let rd1 := set_started true (set_runtime (Some cx) (Some cx) rd) in
    match registerServiceNode rd1 w1 with
    | (Some e, w2) =>
        (rd1, Errorf (logger rd1) "register service error=%v" e w2, Some e)
    | (None, w2) => (rd1, go_heartBeat w2, None)
    end.

(** [Stop(ctx)].  [rd.runtimeCancel()] is a call through a function value,
    which panics when the value is nil. *)
Definition Stop (rd : RedisDriver) (w : World) (ctx : Context)
    : outcome (RedisDriver * World * option error) :=
  match runtimeCancel rd with
  | None => Panicked nil_dereference
  | Some cx => Returned (set_started false rd, cancel cx w, None)
  end.

(** A server with no key, no fault to come and nothing else going on, and
    the same world with a given list of faults. *)
Definition empty_world : World :=
  {| kv := ∅; faults := []; cmds := []; scans := fun _ => [];
     cancelled := ∅; next_ctx := 0; logs := []; goroutines := [] |}.

Definition with_faults (f : list (option error)) (w : World) : World :=
  set_redis (kv w) f (cmds w) w.

Definition with_scans (f : string -> list ScanReply) (w : World) : World :=
  {| kv := kv w; faults := faults w; cmds := cmds w; scans := f;
     cancelled := cancelled w; next_ctx := next_ctx w; logs := logs w;
     goroutines := goroutines w |}.

(** What a scan ought to lose on a failure: the keys of the pages that
    arrived before it. *)
Fixpoint pages_before_failure (replies : list ScanReply) : list string :=
  match replies with
  | [] => []
  | ScanPage keys :: rest => keys ++ pages_before_failure rest
  | ScanFail _ :: _ => []
  end.

(** A scan in three pages, the second one empty. *)
Definition two_pages : list ScanReply :=
  [ScanPage ["jobs:node-1"]; ScanPage []; ScanPage ["jobs:node-2"]].

(** A driver as [Init] leaves it when [GetNodeId] answers
    [jobs:node-1] for the service [jobs]. *)
Definition node1 : RedisDriver :=
  set_identity "jobs" "jobs:node-1" (NewDriver 0).

Definition refused : error := errors_New "connection refused".

(** Option kinds and an identity scheme to run the driver with. *)
Definition kind_timeout : Z := 1536.
Definition kind_logger : Z := 1537.
Definition node_id (name token : string) : string := name +:+ ":" +:+ token.

(** [node1] after a [Start] that went through, and a store that turns down
    the first write. *)
Definition running1 : RedisDriver * World * option error :=
  Start node1 empty_world Background.

Definition store_down : World := with_faults [Some refused] empty_world.

(** Whether a call came back with a nil error. *)
Definition returned_nil {A : Type} (r : outcome (A * option error)) : bool :=
  match r with
  | Returned (_, None) => true
  | Returned (_, Some _) => false
  | Panicked _ => false
  end.

(** ** The heartbeat loop *)

(** What wakes a goroutine: it is scheduled for the first time, its ticker
    fires, or the [Done] channel it waits on is closed. *)
Inductive Event : Type :=
| EvRun
| EvTick
| EvDone.

(** [time.NewTicker(d)] panics when [d] is not positive. *)
Definition NewTicker (d : Z) : option Z :=
  if (d <=? 0)%Z then None else Some d.

(** Entering the [select]: [rd.runtimeCtx.Done()] is evaluated on the
    driver as it is now. *)
Definition enter_select (rd : RedisDriver) (period : Z) : HeartBeat :=
  match runtimeCtx rd with
  | Some cx => HBSelect period cx
  | None => HBPanicked nil_dereference
  end.

Definition log_failure (l : Logger) (format : string) (r : option error)
    (w : World) : World :=
  match r with
  | Some e => Errorf l format e w
  | None => w
  end.

(** One step of [heartBeat()].  The goroutine holds the pointer [rd], so
    each step reads the driver as it is when the step runs.  [None]: the
    event cannot wake the goroutine in this state. *)
Definition heartBeat_step (rd : RedisDriver) (w : World) (h : HeartBeat)
    (ev : Event) : option (HeartBeat * World) :=
  match h, ev with
  | HBSpawned, EvRun =>
      match NewTicker (Z.quot (timeout rd) 2) with
      | None => Some (HBPanicked non_positive_interval, w)
      | Some period => Some (enter_select rd period, w)
      end
  | HBSelect period cx, EvTick =>
      let '(r, w1) := registerServiceNode rd w in
      Some (enter_select rd period,
            log_failure (logger rd) "register service node error %+v" r w1)
  | HBSelect period cx, EvDone =>
      if decide (cx ∈ cancelled w) then
        let '(r, w1) := Del [nodeID rd; nodeID rd] w in
        Some (HBReturned,
              log_failure (logger rd) "unregister service node error %+v" r w1)
      else None
  | _, _ => None
  end.

(** The goroutine run on a sequence of events, the driver left alone
    meanwhile. *)
Fixpoint heartBeat_run (rd : RedisDriver) (w : World) (h : HeartBeat)
    (evs : list Event) : option (HeartBeat * World) :=
  match evs with
  | [] => Some (h, w)
  | ev :: evs' =>
      match heartBeat_step rd w h ev with
      | Some (h1, w1) => heartBeat_run rd w1 h1 evs'
      | None => None
      end
  end.

(** The renewal writes among a list of commands. *)
Definition is_SetEx (x : Cmd) : bool :=
  match x with CmdSetEx _ _ _ => true | CmdDel _ => false end.

Definition renewals (w : World) : nat := length (filter is_SetEx (cmds w)).

(** ** Scanning *)

(** The iterator of the client library, [redis.ScanIterator]: [Next]
    advances the cursor and returns true if more values can be read, and
    returns false at once when the command carries an error; [Err] is the
    last error of the iteration; [Val] is the key at the cursor. *)
Module redis.

Record ScanIterator : Type := {
  page : list string;
  (** the replies still to come; none left is cursor 0 *)
  cursor : list ScanReply;
  err : option error;
  pos : nat;
}.

(** [c.Scan(ctx, 0, match, count).Iterator()]: the first SCAN command is
    sent when the command is built. *)
Definition Scan (replies : list ScanReply) : ScanIterator :=
  match replies with
  | [] => {| page := []; cursor := []; err := None; pos := 0 |}
  | ScanPage keys :: rest =>
      {| page := keys; cursor := rest; err := None; pos := 0 |}
  | ScanFail e :: rest =>
      {| page := []; cursor := rest; err := Some e; pos := 0 |}
  end.

(** The page-fetching loop of [Next]: stop at cursor 0, stop on a failed
    command, skip the empty pages. *)
Fixpoint fetch (replies : list ScanReply) (it : ScanIterator)
    : bool * ScanIterator :=
  match replies with
  | [] => (false, it)
  | ScanFail e :: rest =>
      (false, {| page := page it; cursor := rest; err := Some e;
                 pos := pos it |})
  | ScanPage keys :: rest =>
      let it1 := {| page := keys; cursor := rest; err := None; pos := 1 |} in
      match keys with
      | [] => fetch rest it1
      | _ :: _ => (true, it1)
      end
  end.

Definition Next (it : ScanIterator) : bool * ScanIterator :=
  match err it with
  | Some _ => (false, it)
  | None =>
      if decide (pos it < length (page it)) then
        (true, {| page := page it; cursor := cursor it; err := err it;
                  pos := S (pos it) |})
      else fetch (cursor it) it
  end.

Definition Err (it : ScanIterator) : option error := err it.

Definition Val (it : ScanIterator) : string :=
  match err it with
  | Some _ => ""
  | None =>
      if decide (0 < pos it ∧ pos it ≤ length (page it)) then
        nth (pos it - 1) (page it) ""
      else ""
  end.

(** The values an iteration can still visit, counting one more for each
    command still to be sent. *)
Definition reply_weight (r : ScanReply) : nat :=
  match r with
  | ScanPage keys => S (length keys)
  | ScanFail _ => 1
  end.

Definition budget (it : ScanIterator) : nat :=
  (length (page it) - pos it) + sum_list (reply_weight <$> cursor it).

End redis.

(** The loop of [scan]: [fuel] bounds the number of iterations, [None] is
    fuel used up.  A nil slice is [None], a slice [Some]. *)
Fixpoint scan_loop (fuel : nat) (it : redis.ScanIterator) (ret : list string)
    : option (option (list string) * option error) :=
  match fuel with
  | O => None
  | S fuel' =>
      let '(more, it1) := redis.Next it in
      if more then
        match redis.Err it1 with
        | Some e => Some (None, Some e)
        | None => scan_loop fuel' it1 (ret ++ [redis.Val it1])
        end
      else Some (Some ret, None)
  end.

(** [scan(ctx, matchStr)], on a scan whose replies end: the fuel covers
    every value the iterator can still visit. *)
Definition scan (rd : RedisDriver) (w : World) (ctx : Context)
    (matchStr : string) : option (option (list string) * option error) :=
  let iter := redis.Scan (scans w matchStr) in
  scan_loop (S (redis.budget iter)) iter [].

(** ** Methods that depend on package [commons] *)

Section Commons.

(** The two option kinds the driver knows, [commons.OptionTypeTimeout] and
    [commons.OptionTypeLogger]; they label two cases of one [switch], so
    they differ.  [GetNodeId] derives the identity from the service name
    and a fresh random token, [GetKeyPre] is the key prefix of a service. *)
Variables OptionTypeTimeout OptionTypeLogger : Z.
Variable GetNodeId : string -> string -> string.
Variable GetKeyPre : string -> string.
Hypothesis kinds_differ : OptionTypeTimeout <> OptionTypeLogger.

(** The call [opt.Type()]. *)
Definition Option_Type (opt : commons.Option) : outcome Z :=
  match opt with
  | commons.TimeoutOption _ => Returned OptionTypeTimeout
  | commons.LoggerOption _ => Returned OptionTypeLogger
  | commons.OtherOption kind => Returned kind
  | commons.NilOption => Panicked nil_dereference
  end.

(** [WithOption(opt)].  A type assertion on a value of another type
    panics. *)
Definition WithOption (rd : RedisDriver) (opt : commons.Option)
    : outcome (RedisDriver * option error) :=
  match Option_Type opt with
  | Panicked reason => Panicked reason
  | Returned kind =>
      if decide (kind = OptionTypeTimeout) then
        match opt with
        | commons.TimeoutOption t => Returned (set_timeout t rd, None)
        | _ => Panicked interface_conversion
        end
      else if decide (kind = OptionTypeLogger) then
        match opt with
        | commons.LoggerOption l => Returned (set_logger l rd, None)
        | _ => Panicked interface_conversion
        end
      else Returned (rd, None)
  end.

(** The loop of [Init] over its options; the error of [WithOption] is
    dropped. *)
Fixpoint apply_options (rd : RedisDriver) (opts : list commons.Option)
    : outcome RedisDriver :=
  match opts with
  | [] => Returned rd
  | opt :: opts' =>
      match WithOption rd opt with
      | Returned (rd1, _) => apply_options rd1 opts'
      | Panicked reason => Panicked reason
      end
  end.

(** [Init(serviceName, opts...)]; [token] is the random part of the
    identity drawn by [GetNodeId]. *)
Definition Init (rd : RedisDriver) (name token : string)
    (opts : list commons.Option) : outcome RedisDriver :=
  apply_options (set_identity name (GetNodeId name token) rd) opts.

(** [GetNodes(ctx)]. *)
Definition GetNodes (rd : RedisDriver) (w : World) (ctx : Context)
    : option (option (list string) * option error) :=
  let mathStr := GetKeyPre (serviceName rd) +:+ "*" in
  scan rd w ctx mathStr.

(** ** The driver in use *)

(** What can happen to a driver: a call of one of its methods, or one of
    its goroutines waking up. *)
Inductive Action : Type :=
| ActInit (name token : string) (opts : list commons.Option)
| ActWithOption (opt : commons.Option)
| ActStart (ctx : Context)
| ActStop (ctx : Context)
| ActWake (i : nat) (ev : Event).

(** The state after an action; [None] when the call panics or the event
    cannot wake the goroutine. *)
Definition perform (a : Action) (rd : RedisDriver) (w : World)
    : option (RedisDriver * World) :=
  match a with
  | ActInit name token opts =>
      match Init rd name token opts with
      | Returned rd1 => Some (rd1, w)
      | Panicked _ => None
      end
  | ActWithOption opt =>
      match WithOption rd opt with
      | Returned (rd1, _) => Some (rd1, w)
      | Panicked _ => None
      end
  | ActStart ctx =>
      let '(rd1, w1, _) := Start rd w ctx in Some (rd1, w1)
  | ActStop ctx =>
      match Stop rd w ctx with
      | Returned (rd1, w1, _) => Some (rd1, w1)
      | Panicked _ => None
      end
  | ActWake i ev =>
      match goroutines w !! i with
      | Some h =>
          match heartBeat_step rd w h ev with
          | Some (h1, w1) =>
              Some (rd, set_goroutines (<[i := h1]> (goroutines w1)) w1)
          | None => None
          end
      | None => None
      end
  end.

(** The states a driver made by [NewDriver] can be in. *)
Inductive reachable : RedisDriver -> World -> Prop :=
| reachable_new (redisClient : nat) (w : World) :
    goroutines w = [] -> reachable (NewDriver redisClient) w
| reachable_step (a : Action) (rd rd1 : RedisDriver) (w w1 : World) :
    reachable rd w -> perform a rd w = Some (rd1, w1) -> reachable rd1 w1.

(** The cancellation handle is there whenever the driver is marked started,
    and it cancels the runtime context. *)
Definition handle_ok (rd : RedisDriver) : Prop :=
  (started rd = true -> is_Some (runtimeCancel rd)) /\
  runtimeCtx rd = runtimeCancel rd.

(** ** Reading the loops *)

(** The timeout and the logger a run of [WithOption] over a list of options
    ends with: the last option of each kind decides. *)
Fixpoint options_timeout (d : Z) (opts : list commons.Option) : Z :=
  match opts with
  | [] => d
  | commons.TimeoutOption t :: opts' => options_timeout t opts'
  | _ :: opts' => options_timeout d opts'
  end.

Fixpoint options_logger (d : Logger) (opts : list commons.Option) : Logger :=
  match opts with
  | [] => d
  | commons.LoggerOption l :: opts' => options_logger l opts'
  | _ :: opts' => options_logger d opts'
  end.

(** What [WithOption] panics with on an option, when it does: the call of
    [Type()] on a nil option, or the type assertion on a value of a foreign
    type that answers one of the two known kinds. *)
Definition option_panic (opt : commons.Option) : option string :=
  match opt with
  | commons.NilOption => Some nil_dereference
  | commons.OtherOption kind =>
      if bool_decide (kind = OptionTypeTimeout) ||
         bool_decide (kind = OptionTypeLogger)
      then Some interface_conversion else None
  | _ => None
  end.

(** The panic of the first option of a list that has one. *)
Fixpoint first_panic (opts : list commons.Option) : option string :=
  match opts with
  | [] => None
  | opt :: opts' =>
      match option_panic opt with
      | Some reason => Some reason
      | None => first_panic opts'
      end
  end.

Definition is_ScanPage (r : ScanReply) : bool :=
  match r with ScanPage _ => true | ScanFail _ => false end.

Definition reply_keys (r : ScanReply) : list string :=
  match r with ScanPage keys => keys | ScanFail _ => [] end.

(** Contexts are handed out in order: every cancelled context and the one
    the driver holds were made by an earlier [WithCancel]. *)
Definition contexts_ok (rd : RedisDriver) (w : World) : Prop :=
  (forall x : nat, x ∈ cancelled w -> x < next_ctx w) /\
  (forall cx : nat, runtimeCancel rd = Some cx -> cx < next_ctx w).

(** No goroutine runs before the driver has a runtime context, and none
    has died on a nil context. *)
Definition goroutines_ok (rd : RedisDriver) (w : World) : Prop :=
  (goroutines w <> [] -> is_Some (runtimeCtx rd)) /\
  Forall (fun h => h <> HBPanicked nil_dereference) (goroutines w).

(** A run of actions, stopping at the first one that cannot be performed. *)
Fixpoint perform_all (acts : list Action) (rd : RedisDriver) (w : World)
    : option (RedisDriver * World) :=
  match acts with
  | [] => Some (rd, w)
  | a :: acts' =>
      match perform a rd w with
      | Some (rd1, w1) => perform_all acts' rd1 w1
      | None => None
      end
  end.

Definition is_ActInit (a : Action) : bool :=
  match a with ActInit _ _ _ => true | _ => false end.

(** * Properties *)

(** ** Start and Stop *)

Lemma registerServiceNode_sends (rd : RedisDriver) (w : World) :
  cmds (registerServiceNode rd w).2 =
  cmds w ++ [CmdSetEx (nodeID rd) (nodeID rd) (timeout rd)].
Proof.
  unfold registerServiceNode, SetEx.
  destruct (next_fault w) as [[e|] fs]; reflexivity.
Qed.

Lemma registerServiceNode_frame (rd : RedisDriver) (w : World) :
  let w1 := (registerServiceNode rd w).2 in
  goroutines w1 = goroutines w /\ logs w1 = logs w /\
  cancelled w1 = cancelled w /\ next_ctx w1 = next_ctx w.
Proof.
  unfold registerServiceNode, SetEx.
  destruct (next_fault w) as [[e|] fs]; simpl; auto.
Qed.

(** Whatever [Start] answers, the driver is marked started afterwards. *)
Lemma Start_marks_started (rd rd1 : RedisDriver) (w w1 : World)
    (ctx : Context) (r : option error) :
  Start rd w ctx = (rd1, w1, r) -> started rd1 = true.
Proof.
  unfold Start. destruct (started rd) eqn:Hs.
  - intros [= <- <- <-]. exact Hs.
  - simpl. destruct (registerServiceNode _ _) as [[e|] w2]; intros [= <- <- <-];
      reflexivity.
Qed.

(** A [Start] that reports an error starts no goroutine. *)
Lemma Start_error_no_goroutine (rd rd1 : RedisDriver) (w w1 : World)
    (ctx : Context) (e : error) :
  Start rd w ctx = (rd1, w1, Some e) -> goroutines w1 = goroutines w.
Proof.
  unfold Start. destruct (started rd).
  - intros [= <- <- <-]. reflexivity.
  - simpl.
    destruct (registerServiceNode _ _) as [[e'|] w2] eqn:Hr; intros [= <- <- <-].
    pose proof (registerServiceNode_frame
      (set_started true
         (set_runtime (Some (next_ctx w)) (Some (next_ctx w)) rd))
      (set_contexts (cancelled w) (S (next_ctx w)) w)) as Hf.
    rewrite Hr in Hf. simpl in Hf. destruct Hf as [Hg _]. exact Hg.
Qed.

(** The error of a failed registration is the one [Start] returns. *)
Lemma Start_reports_registration_error (rd : RedisDriver) (w w2 : World)
    (ctx : Context) (e : error) :
  started rd = false ->
  registerServiceNode
    (set_started true (set_runtime (Some (next_ctx w)) (Some (next_ctx w)) rd))
    (WithCancel w).2 = (Some e, w2) ->
  (Start rd w ctx).2 = Some e.
Proof.
  intros Hs Hr. unfold Start. rewrite Hs. simpl in *. rewrite Hr. reflexivity.
Qed.

Lemma Start_handle_ok (rd rd1 : RedisDriver) (w w1 : World) (ctx : Context)
    (r : option error) :
  handle_ok rd -> Start rd w ctx = (rd1, w1, r) -> handle_ok rd1.
Proof.
  intros Hok. unfold Start. destruct (started rd).
  - intros [= <- <- <-]. exact Hok.
  - simpl. destruct (registerServiceNode _ _) as [[e|] w2]; intros [= <- <- <-];
      (split; [intros _; eexists; reflexivity | reflexivity]).
Qed.

Lemma Stop_handle_ok (rd rd1 : RedisDriver) (w w1 : World) (ctx : Context)
    (r : option error) :
  handle_ok rd -> Stop rd w ctx = Returned (rd1, w1, r) -> handle_ok rd1.
Proof.
  intros [_ Hc]. unfold Stop. destruct (runtimeCancel rd) as [cx|] eqn:Hcx;
    [|discriminate].
  intros [= <- <- <-]. split; [discriminate | simpl; congruence].
Qed.

Lemma WithOption_handle_ok (rd rd1 : RedisDriver) (opt : commons.Option)
    (r : option error) :
  handle_ok rd -> WithOption rd opt = Returned (rd1, r) -> handle_ok rd1.
Proof.
  intros Hok. unfold WithOption.
  destruct opt; simpl; repeat case_decide; try discriminate;
    intros [= <- <-]; exact Hok.
Qed.

Lemma apply_options_handle_ok (opts : list commons.Option)
    (rd rd1 : RedisDriver) :
  handle_ok rd -> apply_options rd opts = Returned rd1 -> handle_ok rd1.
Proof.
  revert rd. induction opts as [|opt opts IH]; intros rd Hok; simpl.
  - intros [= <-]. exact Hok.
  - destruct (WithOption rd opt) as [[rd2 r]|reason] eqn:Hw; [|discriminate].
    apply IH. eapply WithOption_handle_ok; eassumption.
Qed.

Lemma perform_handle_ok (a : Action) (rd rd1 : RedisDriver) (w w1 : World) :
  handle_ok rd -> perform a rd w = Some (rd1, w1) -> handle_ok rd1.
Proof.
  intros Hok. destruct a as [name token opts|opt|ctx|ctx|i ev]; simpl.
  - unfold Init. destruct (apply_options _ opts) as [rd2|reason] eqn:Ha;
      [|discriminate].
    intros [= <- <-]. eapply apply_options_handle_ok; [|exact Ha]. exact Hok.
  - destruct (WithOption rd opt) as [[rd2 r]|reason] eqn:Hw; [|discriminate].
    intros [= <- <-]. eapply WithOption_handle_ok; eassumption.
  - destruct (Start rd w ctx) as [[rd2 w2] r] eqn:Hst.
    intros [= <- <-]. eapply Start_handle_ok; eassumption.
  - destruct (Stop rd w ctx) as [[[rd2 w2] r]|reason] eqn:Hst; [|discriminate].
    intros [= <- <-]. eapply Stop_handle_ok; eassumption.
  - destruct (goroutines w !! i) as [h|]; [|discriminate].
    destruct (heartBeat_step rd w h ev) as [[h1 w2]|]; [|discriminate].
    intros [= <- <-]. exact Hok.
Qed.

Lemma reachable_handle_ok (rd : RedisDriver) (w : World) :
  reachable rd w -> handle_ok rd.
Proof.
  induction 1 as [redisClient w Hg|a rd rd1 w w1 Hr IH Hp].
  - split; [discriminate | reflexivity].
  - eapply perform_handle_ok; eassumption.
Qed.

(** C1: a [Start] whose registration fails returns the error of the
    registration and starts no goroutine, but it leaves the driver marked
    started: the next [Start] is turned down as already started.  Here the
    store refuses the first write of the driver [node1]. *)
Theorem Start_failed_registration_stays_started :
  let '(rd1, w1, r1) := Start node1 store_down Background in
  r1 = Some refused /\ goroutines w1 = [] /\ started rd1 = true /\
  (Start rd1 w1 Background).2 = Some ErrStarted.
Proof. simpl. repeat split; reflexivity. Qed.

(** C2: on a driver that is marked started, [Start] returns the
    already-started error and changes neither the driver nor the world: no
    context is made, no command is sent, no goroutine is started. *)
Theorem Start_running_rejected (rd : RedisDriver) (w : World) (ctx : Context) :
  started rd = true -> Start rd w ctx = (rd, w, Some ErrStarted).
Proof. intros Hs. unfold Start. rewrite Hs. reflexivity. Qed.

(** Two calls in a row: whatever the first one answered, the second one is
    turned down. *)
Lemma Start_twice (rd rd1 : RedisDriver) (w w1 : World) (ctx ctx' : Context)
    (r : option error) :
  Start rd w ctx = (rd1, w1, r) ->
  Start rd1 w1 ctx' = (rd1, w1, Some ErrStarted).
Proof.
  intros Hst. unfold Start at 1.
  rewrite (Start_marks_started _ _ _ _ _ _ Hst). reflexivity.
Qed.

(** C4: [Stop] on a driver whose cancel function is nil, as it is until the
    first [Start], panics on the call of that function. *)
Theorem Stop_nil_cancel_panics (rd : RedisDriver) (w : World) (ctx : Context) :
  runtimeCancel rd = None -> Stop rd w ctx = Panicked nil_dereference.
Proof. intros Hc. unfold Stop. rewrite Hc. reflexivity. Qed.

(** With a cancel function in place [Stop] returns, also when the context
    is cancelled already; the set of cancelled contexts is then the same. *)
Lemma Stop_returns (rd : RedisDriver) (w : World) (ctx : Context) (cx : nat) :
  runtimeCancel rd = Some cx ->
  Stop rd w ctx = Returned (set_started false rd, cancel cx w, None).
Proof. intros Hc. unfold Stop. rewrite Hc. reflexivity. Qed.

Lemma cancel_again (cx : nat) (w : World) :
  cx ∈ cancelled w -> cancelled (cancel cx w) = cancelled w.
Proof.
  intros Hin. simpl. apply set_eq. intros x.
  rewrite elem_of_union, elem_of_singleton.
  split; [intros [->|Hx]; assumption | auto].
Qed.

(** C9: on a driver that was never started [Stop] does not come back with a
    nil error, whatever the context. *)
Theorem Stop_fresh_driver_no_nil_return (redisClient : nat) (w : World)
    (ctx : Context) :
  returned_nil (Stop (NewDriver redisClient) w ctx) = false.
Proof. reflexivity. Qed.

(** Whenever [Stop] returns, its error is nil. *)
Lemma Stop_error_nil (rd rd1 : RedisDriver) (w w1 : World) (ctx : Context)
    (r : option error) :
  Stop rd w ctx = Returned (rd1, w1, r) -> r = None.
Proof.
  unfold Stop. destruct (runtimeCancel rd); [|discriminate].
  intros [= _ _ <-]. reflexivity.
Qed.

(** The context argument of [Stop] plays no part. *)
Lemma Stop_ignores_ctx (rd : RedisDriver) (w : World) (ctx ctx' : Context) :
  Stop rd w ctx = Stop rd w ctx'.
Proof. reflexivity. Qed.

(** C10: after [Start] has returned on a reachable driver, with or without
    an error, the cancel function is set and belongs to the runtime
    context; [Stop] then returns a nil error and clears the started flag;
    and the next [Start] is taken: it marks the driver started, installs a
    fresh context with its cancel function and sends the registration. *)
Theorem Start_Stop_Start (rd rd1 : RedisDriver) (w w1 : World)
    (ctx : Context) (r : option error) :
  reachable rd w ->
  Start rd w ctx = (rd1, w1, r) ->
  is_Some (runtimeCancel rd1) /\
  runtimeCtx rd1 = runtimeCancel rd1 /\
  forall ctx2 : Context,
    exists (rd2 : RedisDriver) (w2 : World),
      Stop rd1 w1 ctx2 = Returned (rd2, w2, None) /\
      started rd2 = false /\
      forall (w3 : World) (ctx3 : Context),
        let '(rd3, w4, _) := Start rd2 w3 ctx3 in
        started rd3 = true /\
        runtimeCtx rd3 = Some (next_ctx w3) /\
        runtimeCancel rd3 = Some (next_ctx w3) /\
        cmds w4 = cmds w3 ++ [CmdSetEx (nodeID rd) (nodeID rd) (timeout rd)].
Proof.
  intros Hreach Hst.
  pose proof (Start_handle_ok _ _ _ _ _ _
                (reachable_handle_ok _ _ Hreach) Hst) as [Hsome Hctx].
  pose proof (Start_marks_started _ _ _ _ _ _ Hst) as Hs.
  destruct (Hsome Hs) as [cx Hcx].
  assert (Hid : nodeID rd1 = nodeID rd /\ timeout rd1 = timeout rd).
  { revert Hst. unfold Start. destruct (started rd).
    - intros [= <- _ _]. auto.
    - simpl. destruct (registerServiceNode _ _) as [[e|] wr];
        intros [= <- _ _]; auto. }
  destruct Hid as [Hn Ht].
  split; [eauto|]. split; [exact Hctx|].
  intros ctx2. exists (set_started false rd1), (cancel cx w1).
  split; [apply Stop_returns, Hcx|]. split; [reflexivity|].
  intros w3 ctx3. unfold Start. simpl.
  destruct (registerServiceNode _ _) as [[e|] wr] eqn:Hr; simpl;
    (repeat split; try reflexivity);
    pose proof (registerServiceNode_sends
      (set_started true
         (set_runtime (Some (next_ctx w3)) (Some (next_ctx w3))
            (set_started false rd1)))
      (set_contexts (cancelled w3) (S (next_ctx w3)) w3)) as Hsent;
    rewrite Hr in Hsent; simpl in Hsent; rewrite Hsent, Hn, Ht; reflexivity.
Qed.

(** ** The lease *)

Lemma SetEx_store (key value : string) (expiration : Z) (w : World) :
  let '(r, w1) := SetEx key value expiration w in
  cmds w1 = cmds w ++ [CmdSetEx key value expiration] /\
  kv w1 = match r with
          | None => <[key := (value, formatSec expiration)]> (kv w)
          | Some _ => kv w
          end.
Proof.
  unfold SetEx. destruct (next_fault w) as [[e|] fs]; simpl; auto.
Qed.

(** From one second on, the seconds sent do not exceed the duration. *)
Lemma formatSec_whole (dur : Z) :
  (Second <= dur)%Z ->
  (1 <= formatSec dur)%Z /\ (formatSec dur * Second <= dur)%Z.
Proof.
  intros Hd. unfold formatSec, Second in *.
  rewrite decide_False by lia.
  rewrite Z.quot_div_nonneg by lia.
  pose proof (Z.div_mod dur 1000000000 ltac:(lia)) as Hdm.
  pose proof (Z.mod_pos_bound dur 1000000000 ltac:(lia)) as Hm.
  split; [apply Z.div_le_lower_bound; lia | lia].
Qed.

(** A positive duration below one second is sent as one second. *)
Lemma formatSec_small (dur : Z) :
  (0 < dur)%Z -> (dur < Second)%Z -> formatSec dur = 1%Z.
Proof.
  intros Hpos Hlt. unfold formatSec. rewrite decide_True; [reflexivity | lia].
Qed.

Lemma log_failure_logs (l : Logger) (format : string) (r : option error)
    (w : World) :
  logs (log_failure l format r w) =
  logs w ++ match r with
            | Some e => [{| log_sink := l; log_format := format;
                            log_arg := e |}]
            | None => []
            end.
Proof. destruct r; simpl; [reflexivity | symmetry; apply app_nil_r]. Qed.

Lemma log_failure_frame (l : Logger) (format : string) (r : option error)
    (w : World) :
  cmds (log_failure l format r w) = cmds w /\
  kv (log_failure l format r w) = kv w /\
  faults (log_failure l format r w) = faults w.
Proof. destruct r; simpl; auto. Qed.

(** C5, as the code has it: the write of a registration or of a renewal
    is one SETEX command with the node identity as key and as value and
    the configured timeout as expiry, and when it succeeds the store
    differs by this one pair, which lives the seconds the client sends for
    the timeout; the renewal of a tick is this same write; after a [Start]
    that returned no error the store holds the node identity under its own
    key, with a time to live that is at most the timeout when the timeout
    is one second or more, and one second when the timeout is positive and
    shorter. *)
Theorem lease_write (rd : RedisDriver) (w : World) :
  (let '(r, w1) := registerServiceNode rd w in
   cmds w1 = cmds w ++ [CmdSetEx (nodeID rd) (nodeID rd) (timeout rd)] /\
   kv w1 = match r with
           | None =>
               <[nodeID rd := (nodeID rd, formatSec (timeout rd))]> (kv w)
           | Some _ => kv w
           end) /\
  (forall (period : Z) (cx : nat),
     exists (h : HeartBeat) (w1 : World),
       heartBeat_step rd w (HBSelect period cx) EvTick = Some (h, w1) /\
       cmds w1 = cmds (registerServiceNode rd w).2 /\
       kv w1 = kv (registerServiceNode rd w).2) /\
  (forall (ctx : Context) (rd1 : RedisDriver) (w1 : World),
     Start rd w ctx = (rd1, w1, None) ->
     nodeID rd1 = nodeID rd /\ timeout rd1 = timeout rd /\
     cmds w1 = cmds w ++ [CmdSetEx (nodeID rd) (nodeID rd) (timeout rd)] /\
     kv w1 = <[nodeID rd := (nodeID rd, formatSec (timeout rd))]> (kv w) /\
     kv w1 !! nodeID rd1 = Some (nodeID rd1, formatSec (timeout rd1)) /\
     ((Second <= timeout rd1)%Z ->
      (formatSec (timeout rd1) * Second <= timeout rd1)%Z) /\
     ((0 < timeout rd1)%Z -> (timeout rd1 < Second)%Z ->
      formatSec (timeout rd1) = 1%Z)).
Proof.
  split; [|split].
  - apply SetEx_store.
  - intros period cx. unfold heartBeat_step.
    destruct (registerServiceNode rd w) as [r w1]. simpl.
    eexists _, _. split; [reflexivity|].
    destruct (log_failure_frame (logger rd)
                "register service node error %+v" r w1) as (Hc & Hk & _).
    auto.
  - intros ctx rd1 w1. unfold Start. destruct (started rd); [discriminate|].
    simpl.
    pose proof (SetEx_store (nodeID rd) (nodeID rd) (timeout rd)
                  (set_contexts (cancelled w) (S (next_ctx w)) w)) as Hs.
    unfold registerServiceNode. simpl.
    destruct (SetEx _ _ _ _) as [[e|] w2]; [discriminate|].
    intros [= <- <-]. simpl in *. destruct Hs as [Hc Hk].
    split; [reflexivity|]. split; [reflexivity|].
    split; [exact Hc|]. split; [exact Hk|]. split; [|split].
    + rewrite Hk. apply lookup_insert_eq.
    + intros Hd. apply formatSec_whole, Hd.
    + apply formatSec_small.
Qed.

(** C5, where it fails: with a timeout of half a second [Start] succeeds
    and the lease is in the store with one second to live, which is more
    than the timeout. *)
Lemma lease_outlives_short_timeout :
  let '(rd1, w1, r) :=
    Start (set_timeout 500000000 node1) empty_world Background in
  r = None /\
  kv w1 !! nodeID rd1 = Some (nodeID rd1, 1%Z) /\
  (timeout rd1 < 1 * Second)%Z.
Proof. vm_compute. repeat split; reflexivity. Qed.

(** ** The heartbeat loop *)

Lemma tick_step (rd : RedisDriver) (w : World) (period : Z) (done cx : nat) :
  runtimeCtx rd = Some cx ->
  heartBeat_step rd w (HBSelect period done) EvTick =
  Some (HBSelect period cx,
        log_failure (logger rd) "register service node error %+v"
          (registerServiceNode rd w).1 (registerServiceNode rd w).2).
Proof.
  intros Hcx. unfold heartBeat_step, enter_select. rewrite Hcx.
  destruct (registerServiceNode rd w) as [r w1]. reflexivity.
Qed.

Lemma tick_renewals (rd : RedisDriver) (w : World) :
  renewals (log_failure (logger rd) "register service node error %+v"
              (registerServiceNode rd w).1 (registerServiceNode rd w).2) =
  S (renewals w).
Proof.
  unfold renewals.
  destruct (log_failure_frame (logger rd) "register service node error %+v"
              (registerServiceNode rd w).1 (registerServiceNode rd w).2)
    as (-> & _ & _).
  rewrite registerServiceNode_sends, filter_app, length_app. simpl.
  apply Nat.add_1_r.
Qed.

(** Ticks never end the loop: after any number of them, whatever the store
    answered, the goroutine is back in its [select] and has sent one
    renewal per tick. *)
Lemma ticks_keep_looping (rd : RedisDriver) (cx : nat) (period : Z) (n : nat) :
  runtimeCtx rd = Some cx ->
  forall w : World,
    exists w1 : World,
      heartBeat_run rd w (HBSelect period cx) (replicate n EvTick) =
        Some (HBSelect period cx, w1) /\
      renewals w1 = renewals w + n.
Proof.
  intros Hcx. induction n as [|n IH]; intros w.
  - exists w. split; [reflexivity|]. symmetry. apply Nat.add_0_r.
  - cbn [replicate heartBeat_run]. rewrite (tick_step _ _ _ _ _ Hcx).
    destruct (IH (log_failure (logger rd) "register service node error %+v"
                    (registerServiceNode rd w).1
                    (registerServiceNode rd w).2)) as (w1 & Hrun & Hren).
    exists w1. split; [exact Hrun|].
    rewrite Hren, tick_renewals. simpl. rewrite Nat.add_succ_r. reflexivity.
Qed.

(** C6, as the code has it: when the timeout is at least two nanoseconds,
    so that timeout / 2 is positive, the goroutine of a running driver
    makes its ticker with the period timeout / 2; a tick sends the renewal,
    logs its error when it failed and goes back to the [select] with the
    same ticker, so the loop goes on through any number of ticks, failed or
    not, one renewal each; no step of the loop has an error to hand to a
    caller. *)
Theorem heartBeat_renews (rd : RedisDriver) (cx : nat) :
  runtimeCtx rd = Some cx ->
  (0 < Z.quot (timeout rd) 2)%Z ->
  (forall w : World,
     heartBeat_step rd w HBSpawned EvRun =
       Some (HBSelect (Z.quot (timeout rd) 2) cx, w)) /\
  (forall (w : World) (period : Z) (done : nat),
     exists (r : option error) (w1 w2 : World),
       registerServiceNode rd w = (r, w1) /\
       heartBeat_step rd w (HBSelect period done) EvTick =
         Some (HBSelect period cx, w2) /\
       cmds w2 = cmds w ++ [CmdSetEx (nodeID rd) (nodeID rd) (timeout rd)] /\
       logs w2 =
         logs w ++ match r with
                   | Some e =>
                       [{| log_sink := logger rd;
                           log_format := "register service node error %+v";
                           log_arg := e |}]
                   | None => []
                   end) /\
  (forall (w : World) (n : nat),
     exists w1 : World,
       heartBeat_run rd w (HBSelect (Z.quot (timeout rd) 2) cx)
         (replicate n EvTick) =
         Some (HBSelect (Z.quot (timeout rd) 2) cx, w1) /\
       renewals w1 = renewals w + n).
Proof.
  intros Hcx Hpos. split; [|split].
  - intros w. unfold heartBeat_step, NewTicker, enter_select. rewrite Hcx.
    destruct (Z.leb_spec (Z.quot (timeout rd) 2) 0) as [Hle|_]; [lia|].
    reflexivity.
  - intros w period done.
    destruct (registerServiceNode rd w) as [r w1] eqn:Hr.
    exists r, w1, (log_failure (logger rd) "register service node error %+v" r w1).
    split; [reflexivity|]. split.
    { rewrite (tick_step _ _ _ _ _ Hcx), Hr. reflexivity. }
    destruct (log_failure_frame (logger rd)
                "register service node error %+v" r w1) as (-> & _ & _).
    rewrite log_failure_logs.
    pose proof (registerServiceNode_sends rd w) as Hs.
    pose proof (registerServiceNode_frame rd w) as Hf.
    rewrite Hr in Hs, Hf. simpl in Hs, Hf. destruct Hf as (_ & -> & _).
    split; [exact Hs | reflexivity].
  - intros w n. apply ticks_keep_looping, Hcx.
Qed.

(** Until the context is cancelled the [Done] case cannot be taken. *)
Lemma done_needs_cancel (rd : RedisDriver) (w : World) (period : Z) (cx : nat) :
  cx ∉ cancelled w -> heartBeat_step rd w (HBSelect period cx) EvDone = None.
Proof. intros Hn. unfold heartBeat_step. rewrite decide_False; done. Qed.

Lemma returned_is_final (rd : RedisDriver) (w : World) (ev : Event) :
  heartBeat_step rd w HBReturned ev = None.
Proof. destruct ev; reflexivity. Qed.

Lemma returned_run (rd : RedisDriver) (w w1 : World) (evs : list Event)
    (h : HeartBeat) :
  heartBeat_run rd w HBReturned evs = Some (h, w1) ->
  evs = [] /\ h = HBReturned /\ w1 = w.
Proof.
  destruct evs as [|ev evs]; simpl.
  - intros [= <- <-]. auto.
  - destruct ev; discriminate.
Qed.

Lemma Del_store (keys : list string) (w : World) :
  let '(r, w1) := Del keys w in
  cmds w1 = cmds w ++ [CmdDel keys] /\
  logs w1 = logs w /\
  kv w1 = match r with
          | None => foldr delete (kv w) keys
          | Some _ => kv w
          end.
Proof.
  unfold Del. destruct (next_fault w) as [[e|] fs]; simpl; auto.
Qed.

(** C7: when the goroutine sees its context cancelled it sends one DEL
    command for the lease key and returns.  What it logs is the error the
    command came back with, which is the fault the store had for it: one
    entry when there is one, nothing otherwise; the key is removed when the
    command went through and the keys are as before when it failed.  A
    goroutine that has returned takes no step any more, so it sends nothing
    afterwards. *)
Theorem heartBeat_deregisters (rd : RedisDriver) (w : World) (period : Z)
    (cx : nat) :
  cx ∈ cancelled w ->
  exists w1 : World,
    heartBeat_step rd w (HBSelect period cx) EvDone = Some (HBReturned, w1) /\
    cmds w1 = cmds w ++ [CmdDel [nodeID rd; nodeID rd]] /\
    (Del [nodeID rd; nodeID rd] w).1 = (next_fault w).1 /\
    logs w1 =
      logs w ++ match (Del [nodeID rd; nodeID rd] w).1 with
                | Some e =>
                    [{| log_sink := logger rd;
                        log_format := "unregister service node error %+v";
                        log_arg := e |}]
                | None => []
                end /\
    kv w1 = match (next_fault w).1 with
            | None => delete (nodeID rd) (kv w)
            | Some _ => kv w
            end /\
    faults w1 = (next_fault w).2 /\
    forall (rd' : RedisDriver) (w' : World) (evs : list Event) (h : HeartBeat)
           (w'' : World),
      heartBeat_run rd' w' HBReturned evs = Some (h, w'') ->
      evs = [] /\ h = HBReturned /\ w'' = w'.
Proof.
  intros Hin. unfold heartBeat_step. rewrite decide_True by exact Hin.
  unfold Del. destruct (next_fault w) as [[e|] fs]; simpl;
    eexists; (split; [reflexivity|]); simpl;
    (split; [reflexivity|]); (split; [reflexivity|]).
  - do 3 (split; [reflexivity|]).
    intros rd' w' evs h w''. apply returned_run.
  - rewrite app_nil_r, delete_delete_eq. do 3 (split; [reflexivity|]).
    intros rd' w' evs h w''. apply returned_run.
Qed.

(** ** Options *)

(** C8: a new driver has a timeout of five seconds and the standard
    logger.  [WithOption] with a timeout option returns a nil error and a
    driver whose timeout is the one of the option, nothing else changed;
    with a logger option, a nil error and a driver whose logger is the one
    of the option, nothing else changed; with an option whose [Type()]
    answers any other kind, a nil error and the driver as it was. *)
Theorem options_applied (redisClient : nat) (rd : RedisDriver) :
  timeout (NewDriver redisClient) = (5 * Second)%Z /\
  logger (NewDriver redisClient) = StdLogger /\
  (forall t : Z,
     exists rd1 : RedisDriver,
       WithOption rd (commons.TimeoutOption t) = Returned (rd1, None) /\
       timeout rd1 = t /\ logger rd1 = logger rd /\
       c rd1 = c rd /\ serviceName rd1 = serviceName rd /\
       nodeID rd1 = nodeID rd /\ started rd1 = started rd /\
       runtimeCtx rd1 = runtimeCtx rd /\
       runtimeCancel rd1 = runtimeCancel rd) /\
  (forall l : Logger,
     exists rd1 : RedisDriver,
       WithOption rd (commons.LoggerOption l) = Returned (rd1, None) /\
       logger rd1 = l /\ timeout rd1 = timeout rd /\
       c rd1 = c rd /\ serviceName rd1 = serviceName rd /\
       nodeID rd1 = nodeID rd /\ started rd1 = started rd /\
       runtimeCtx rd1 = runtimeCtx rd /\
       runtimeCancel rd1 = runtimeCancel rd) /\
  (forall (opt : commons.Option) (kind : Z),
     Option_Type opt = Returned kind ->
     kind <> OptionTypeTimeout ->
     kind <> OptionTypeLogger ->
     WithOption rd opt = Returned (rd, None)).
Proof.
  split; [reflexivity|]. split; [reflexivity|]. split; [|split].
  - intros t. unfold WithOption. simpl. rewrite decide_True by reflexivity.
    eexists. split; [reflexivity|]. simpl. repeat split; reflexivity.
  - intros l. unfold WithOption. simpl.
    rewrite decide_False by (intros Heq; apply kinds_differ; congruence).
    rewrite decide_True by reflexivity.
    eexists. split; [reflexivity|]. simpl. repeat split; reflexivity.
  - intros opt kind Hk Ht Hl. unfold WithOption. rewrite Hk.
    rewrite decide_False by exact Ht. rewrite decide_False by exact Hl.
    reflexivity.
Qed.

(** ** Scanning *)

Lemma fetch_true (replies : list ScanReply) (it it1 : redis.ScanIterator) :
  redis.fetch replies it = (true, it1) ->
  redis.err it1 = None /\ redis.pos it1 = 1 /\
  (exists (k : string) (ks : list string), redis.page it1 = k :: ks) /\
  redis.page it1 ++ pages_before_failure (redis.cursor it1) =
    pages_before_failure replies /\
  redis.budget it1 < sum_list (redis.reply_weight <$> replies).
Proof.
  revert it. induction replies as [|[keys|e] rest IH]; intros it; simpl.
  - discriminate.
  - destruct keys as [|k ks].
    + intros Hf. destruct (IH _ Hf) as (He & Hp & Hk & Hpages & Hb).
      repeat split; try assumption. unfold fmap in Hb. simpl. lia.
    + intros [= <-]. unfold redis.budget, fmap. simpl.
      repeat split; [eauto | lia].
  - discriminate.
Qed.

Lemma fetch_false (replies : list ScanReply) (it it1 : redis.ScanIterator) :
  redis.fetch replies it = (false, it1) -> pages_before_failure replies = [].
Proof.
  revert it. induction replies as [|[keys|e] rest IH]; intros it; simpl.
  - reflexivity.
  - destruct keys as [|k ks]; [apply IH | discriminate].
  - reflexivity.
Qed.

(** Inside the loop of [scan] the iterator carries no error: [Next] answers
    true only when there is none. *)
Lemma Next_true_no_error (it it1 : redis.ScanIterator) :
  redis.Next it = (true, it1) -> redis.Err it1 = None.
Proof.
  unfold redis.Next, redis.Err. destruct (redis.err it) eqn:He; [discriminate|].
  case_decide.
  - intros [= <-]. reflexivity.
  - intros Hf. apply fetch_true in Hf. tauto.
Qed.

Lemma scan_loop_pages (fuel : nat) (it : redis.ScanIterator)
    (ret : list string) :
  redis.budget it < fuel ->
  redis.err it = None ->
  redis.pos it <= length (redis.page it) ->
  scan_loop fuel it ret =
    Some (Some (ret ++ drop (redis.pos it) (redis.page it) ++
                pages_before_failure (redis.cursor it)), None).
Proof.
  revert it ret. induction fuel as [|fuel IH]; intros it ret Hb He Hp; [lia|].
  cbn [scan_loop]. unfold redis.Next. rewrite He. case_decide as Hlt.
  - unfold redis.Err. cbn [redis.err].
    rewrite IH; cbn [redis.page redis.pos redis.cursor redis.err];
      [| unfold redis.budget in *; simpl; lia | reflexivity | lia].
    unfold redis.Val. cbn [redis.page redis.pos redis.err].
    rewrite decide_True by lia.
    destruct (lookup_lt_is_Some_2 (redis.page it) (redis.pos it) Hlt)
      as [x Hx].
    replace (S (redis.pos it) - 1) with (redis.pos it) by lia.
    rewrite (nth_lookup_Some _ _ _ _ Hx), (drop_S _ _ _ Hx).
    rewrite <- app_assoc. reflexivity.
  - rewrite drop_ge by lia.
    destruct (redis.fetch (redis.cursor it) it) as [[|] it1] eqn:Hf.
    + destruct (fetch_true _ _ _ Hf) as (He1 & Hp1 & (k & ks & Hk) & Hpg & Hb1).
      unfold redis.Err. rewrite He1.
      rewrite IH; [| unfold redis.budget in Hb; lia | exact He1
                   | rewrite Hp1, Hk; simpl; lia].
      unfold redis.Val. rewrite He1, Hp1, Hk. simpl.
      rewrite <- Hpg, Hk, <- app_assoc. reflexivity.
    + rewrite (fetch_false _ _ _ Hf). rewrite app_nil_r. reflexivity.
Qed.

(** On the replies of a scan that ends, [scan] never returns an error: it
    returns the keys of the pages that arrived before the first failed
    command. *)
Lemma scan_returns_pages (rd : RedisDriver) (w : World) (ctx : Context)
    (matchStr : string) :
  scan rd w ctx matchStr =
    Some (Some (pages_before_failure (scans w matchStr)), None).
Proof.
  unfold scan. destruct (scans w matchStr) as [|[keys|e] rest] eqn:Hs.
  - reflexivity.
  - rewrite scan_loop_pages; simpl; try reflexivity; lia.
  - reflexivity.
Qed.

Lemma GetNodes_returns_pages (rd : RedisDriver) (w : World) (ctx : Context) :
  exists keys : list string, GetNodes rd w ctx = Some (Some keys, None).
Proof. unfold GetNodes. rewrite scan_returns_pages. eauto. Qed.

(** C3: a scan that fails on its second command, after a first page of two
    keys, makes [GetNodes] return these two keys with a nil error. *)
Theorem GetNodes_truncates_on_failure :
  let replies :=
    [ScanPage ["jobs:node-1"; "jobs:node-2"]; ScanFail refused] in
  let w := with_scans (fun _ => replies) empty_world in
  GetNodes node1 w Background =
    Some (Some ["jobs:node-1"; "jobs:node-2"], None).
Proof. reflexivity. Qed.

(** ** Init *)

Lemma WithOption_frame (rd rd1 : RedisDriver) (opt : commons.Option)
    (r : option error) :
  WithOption rd opt = Returned (rd1, r) ->
  r = None /\ c rd1 = c rd /\ serviceName rd1 = serviceName rd /\
  nodeID rd1 = nodeID rd /\ started rd1 = started rd /\
  runtimeCtx rd1 = runtimeCtx rd /\ runtimeCancel rd1 = runtimeCancel rd.
Proof.
  unfold WithOption.
  destruct opt; simpl; repeat case_decide; try discriminate;
    intros [= <- <-]; simpl; repeat split; reflexivity.
Qed.

Lemma apply_options_frame (opts : list commons.Option) (rd rd1 : RedisDriver) :
  apply_options rd opts = Returned rd1 ->
  c rd1 = c rd /\ serviceName rd1 = serviceName rd /\
  nodeID rd1 = nodeID rd /\ started rd1 = started rd /\
  runtimeCtx rd1 = runtimeCtx rd /\ runtimeCancel rd1 = runtimeCancel rd.
Proof.
  revert rd. induction opts as [|opt opts IH]; intros rd; simpl.
  - intros [= <-]. repeat split; reflexivity.
  - destruct (WithOption rd opt) as [[rd2 r]|reason] eqn:Hw; [|discriminate].
    intros Ha. apply IH in Ha. apply WithOption_frame in Hw.
    destruct Ha as (-> & -> & -> & -> & -> & ->).
    destruct Hw as (_ & Hw1 & Hw2 & Hw3 & Hw4 & Hw5 & Hw6).
    repeat split; assumption.
Qed.

(** X1: when [Init] returns, the driver carries the service name it was
    given and the identity [GetNodeId] made for it, which [NodeID] reports,
    whatever the options were; the client, the started flag and the runtime
    context with its cancel function are as before. *)
Theorem Init_sets_identity (rd rd1 : RedisDriver) (name token : string)
    (opts : list commons.Option) :
  Init rd name token opts = Returned rd1 ->
  serviceName rd1 = name /\
  NodeID rd1 = GetNodeId name token /\
  c rd1 = c rd /\ started rd1 = started rd /\
  runtimeCtx rd1 = runtimeCtx rd /\ runtimeCancel rd1 = runtimeCancel rd.
Proof.
  unfold Init, NodeID. intros Ha. apply apply_options_frame in Ha.
  simpl in Ha. destruct Ha as (Hc & Hs & Hn & Hst & Hx & Hf).
  repeat split; assumption.
Qed.

(** X2: when [Init] returns, the options were applied in the order given:
    the timeout is the one of the last timeout option and the logger the
    one of the last logger option, and what no option names is kept. *)
Theorem Init_last_option_wins (rd rd1 : RedisDriver) (name token : string)
    (opts : list commons.Option) :
  Init rd name token opts = Returned rd1 ->
  timeout rd1 = options_timeout (timeout rd) opts /\
  logger rd1 = options_logger (logger rd) opts.
Proof.
  unfold Init.
  change (timeout rd) with
    (timeout (set_identity name (GetNodeId name token) rd)).
  change (logger rd) with
    (logger (set_identity name (GetNodeId name token) rd)).
  generalize (set_identity name (GetNodeId name token) rd). clear rd.
  induction opts as [|opt opts IH]; intros rd; simpl.
  - intros [= <-]. split; reflexivity.
  - unfold WithOption.
    destruct opt as [t|l|kind|]; simpl; repeat case_decide;
      try discriminate; try congruence; intros Ha; apply IH in Ha; exact Ha.
Qed.

(** X3: [Init] returns exactly when none of its options is nil and none is
    a value of a foreign type that answers the timeout kind or the logger
    kind; otherwise it panics as the first such option makes [WithOption]
    panic: on the call of [Type()] for a nil one, on the type assertion for
    a foreign one. *)
Theorem Init_returns_or_panics (rd : RedisDriver) (name token : string)
    (opts : list commons.Option) :
  match first_panic opts with
  | Some reason => Init rd name token opts = Panicked reason
  | None => exists rd1 : RedisDriver, Init rd name token opts = Returned rd1
  end.
Proof.
  unfold Init. generalize (set_identity name (GetNodeId name token) rd).
  clear rd. induction opts as [|opt opts IH]; intros rd; simpl.
  - eauto.
  - unfold WithOption. destruct opt as [t|l|kind|]; simpl.
    + rewrite decide_True by reflexivity. apply IH.
    + rewrite decide_False by (intros Heq; apply kinds_differ; congruence).
      rewrite decide_True by reflexivity. apply IH.
    + destruct (decide (kind = OptionTypeTimeout)) as [Ht|Ht].
      { rewrite bool_decide_eq_true_2 by exact Ht. reflexivity. }
      rewrite (bool_decide_eq_false_2 _ Ht).
      destruct (decide (kind = OptionTypeLogger)) as [Hl|Hl].
      { rewrite bool_decide_eq_true_2 by exact Hl. reflexivity. }
      rewrite (bool_decide_eq_false_2 _ Hl). simpl. apply IH.
    + reflexivity.
Qed.

(** ** GetNodes *)

Lemma pages_until_failure (pages : list (list string)) (e : error)
    (rest : list ScanReply) :
  pages_before_failure (map ScanPage pages ++ ScanFail e :: rest) =
  concat pages.
Proof.
  induction pages as [|keys pages IH]; simpl.
  - reflexivity.
  - rewrite IH. reflexivity.
Qed.

(** X4: whenever a command of the scan fails, after any number of pages,
    [GetNodes] returns a nil error and, as a slice that is not nil, the
    keys of the pages received before that command, in the order they
    came: the failure does not reach the caller, whatever the error and
    whatever the server would have answered next. *)
Theorem GetNodes_keys_before_failure (rd : RedisDriver) (w : World)
    (ctx : Context) (pages : list (list string)) (e : error)
    (rest : list ScanReply) :
  scans w (GetKeyPre (serviceName rd) +:+ "*") =
    map ScanPage pages ++ ScanFail e :: rest ->
  GetNodes rd w ctx = Some (Some (concat pages), None).
Proof.
  intros Hs. unfold GetNodes. rewrite scan_returns_pages, Hs.
  rewrite pages_until_failure. reflexivity.
Qed.

Lemma pages_all_arrived (replies : list ScanReply) :
  forallb is_ScanPage replies = true ->
  pages_before_failure replies = concat (map reply_keys replies).
Proof.
  induction replies as [|[keys|e] rest IH]; simpl.
  - reflexivity.
  - intros Hall. rewrite IH by exact Hall. reflexivity.
  - discriminate.
Qed.

(** X5: when no command of the scan fails, [GetNodes] returns every key of
    every page, page after page, empty pages contributing nothing and
    repeated keys kept as often as the server sent them. *)
Theorem GetNodes_complete (rd : RedisDriver) (w : World) (ctx : Context) :
  forallb is_ScanPage (scans w (GetKeyPre (serviceName rd) +:+ "*")) = true ->
  GetNodes rd w ctx =
    Some (Some (concat (map reply_keys
                          (scans w (GetKeyPre (serviceName rd) +:+ "*")))),
          None).
Proof.
  intros Hall. unfold GetNodes. rewrite scan_returns_pages.
  rewrite (pages_all_arrived _ Hall). reflexivity.
Qed.

(** ** Start and Stop, continued *)

(** What an accepted [Start] that registered did. *)
Lemma Start_accepted (rd rd1 : RedisDriver) (w w1 : World) (ctx : Context) :
  Start rd w ctx = (rd1, w1, None) ->
  started rd = false /\
  rd1 = set_started true
          (set_runtime (Some (next_ctx w)) (Some (next_ctx w)) rd) /\
  (next_fault w).1 = None /\
  w1 = go_heartBeat
         (set_redis
            (<[nodeID rd := (nodeID rd, formatSec (timeout rd))]> (kv w))
            (next_fault w).2
            (cmds w ++ [CmdSetEx (nodeID rd) (nodeID rd) (timeout rd)])
            (set_contexts (cancelled w) (S (next_ctx w)) w)).
Proof.
  unfold Start. destruct (started rd); [discriminate|].
  unfold registerServiceNode, SetEx, WithCancel, next_fault. simpl.
  destruct (faults w) as [|[e|] fs]; simpl; try discriminate;
    intros [= <- <-]; auto.
Qed.

Lemma Start_goroutines (rd rd1 : RedisDriver) (w w1 : World) (ctx : Context)
    (r : option error) :
  Start rd w ctx = (rd1, w1, r) ->
  goroutines w1 =
    goroutines w ++ match r with None => [HBSpawned] | Some _ => [] end.
Proof.
  unfold Start. destruct (started rd).
  - intros [= <- <- <-]. symmetry. apply app_nil_r.
  - unfold registerServiceNode, SetEx, WithCancel, next_fault. simpl.
    destruct (faults w) as [|[e|] fs]; simpl; intros [= <- <- <-]; simpl;
      rewrite ?app_nil_r; reflexivity.
Qed.

(** X6: what [Start] leaves behind.  It starts one goroutine when it
    returns no error and none otherwise; it logs the error of a failed
    registration, once, and logs nothing when it turns the call down or
    succeeds; it never cancels a context; and when it returns an error the
    keys of the store are as before. *)
Theorem Start_footprint (rd rd1 : RedisDriver) (w w1 : World) (ctx : Context)
    (r : option error) :
  Start rd w ctx = (rd1, w1, r) ->
  goroutines w1 =
    goroutines w ++ match r with None => [HBSpawned] | Some _ => [] end /\
  logs w1 =
    logs w ++ match r with
              | Some e =>
                  if started rd then []
                  else [{| log_sink := logger rd;
                           log_format := "register service error=%v";
                           log_arg := e |}]
              | None => []
              end /\
  cancelled w1 = cancelled w /\
  (is_Some r -> kv w1 = kv w).
Proof.
  unfold Start. destruct (started rd).
  - intros [= <- <- <-]. rewrite !app_nil_r.
    repeat split; reflexivity.
  - unfold registerServiceNode, SetEx, WithCancel, next_fault. simpl.
    destruct (faults w) as [|[e|] fs]; simpl; intros [= <- <- <-]; simpl;
      rewrite ?app_nil_r; repeat split; try reflexivity;
      intros [e' He']; discriminate.
Qed.

(** X7: [Stop] does not wait for the goroutine and does not touch the
    store: right after a [Start] that succeeded and a [Stop], the keys of
    the store are those [Start] left, the lease among them, no command was
    sent by [Stop], nothing was logged and the goroutines are as [Start]
    left them; only the flag is cleared and the context cancelled. *)
Theorem Stop_leaves_lease (rd rd1 : RedisDriver) (w w1 : World)
    (ctx ctx' : Context) :
  Start rd w ctx = (rd1, w1, None) ->
  exists (rd2 : RedisDriver) (w2 : World),
    Stop rd1 w1 ctx' = Returned (rd2, w2, None) /\
    started rd2 = false /\
    next_ctx w ∈ cancelled w2 /\
    kv w2 = kv w1 /\
    kv w2 !! nodeID rd = Some (nodeID rd, formatSec (timeout rd)) /\
    cmds w2 = cmds w1 /\ logs w2 = logs w1 /\
    goroutines w2 = goroutines w ++ [HBSpawned].
Proof.
  intros Hst. apply Start_accepted in Hst as (Hs & -> & Hf & ->).
  eexists _, _. split; [reflexivity|]. simpl.
  repeat split; try reflexivity.
  - apply elem_of_union_l, elem_of_singleton. reflexivity.
  - apply lookup_insert_eq.
Qed.

(** X8: a second [Stop] changes nothing: it returns a nil error and leaves
    the driver and the world exactly as the first one left them. *)
Theorem Stop_twice (rd rd1 : RedisDriver) (w w1 : World) (ctx ctx' : Context)
    (r : option error) :
  Stop rd w ctx = Returned (rd1, w1, r) ->
  Stop rd1 w1 ctx' = Returned (rd1, w1, None).
Proof.
  unfold Stop. destruct (runtimeCancel rd) as [cx|] eqn:Hcx; [|discriminate].
  intros [= <- <- <-]. simpl. rewrite Hcx.
  unfold cancel, set_contexts, set_started. simpl.
  rewrite (assoc_L (∪)), union_idemp_L. reflexivity.
Qed.

(** X9: the life of the goroutine of a [Start] that succeeded, when the
    timeout is at least two nanoseconds: its first step makes the ticker
    and waits on the context [Start] installed; after [Stop] the
    cancellation wakes it up, it sends the removal of the lease key and
    returns; the key is gone when the removal went through and still there
    when it failed. *)
Theorem Start_Stop_deregisters (rd rd1 : RedisDriver) (w w1 : World)
    (ctx ctx' : Context) :
  Start rd w ctx = (rd1, w1, None) ->
  (0 < Z.quot (timeout rd) 2)%Z ->
  heartBeat_step rd1 w1 HBSpawned EvRun =
    Some (HBSelect (Z.quot (timeout rd) 2) (next_ctx w), w1) /\
  exists (rd2 : RedisDriver) (w2 w3 : World),
    Stop rd1 w1 ctx' = Returned (rd2, w2, None) /\
    heartBeat_step rd2 w2 (HBSelect (Z.quot (timeout rd) 2) (next_ctx w))
      EvDone = Some (HBReturned, w3) /\
    cmds w3 = cmds w1 ++ [CmdDel [nodeID rd; nodeID rd]] /\
    kv w3 !! nodeID rd =
      match (next_fault w1).1 with
      | None => None
      | Some _ => Some (nodeID rd, formatSec (timeout rd))
      end.
Proof.
  intros Hst Hpos. apply Start_accepted in Hst as (Hs & -> & Hf & ->).
  split.
  - unfold heartBeat_step, NewTicker, enter_select. simpl.
    destruct (Z.leb_spec (Z.quot (timeout rd) 2) 0) as [Hle|_]; [lia|].
    reflexivity.
  - unfold next_fault.
    destruct (faults w) as [|f [|[e|] fs]]; simpl;
      eexists _, _, _; (split; [reflexivity|]);
      unfold heartBeat_step;
      rewrite decide_True
        by (apply elem_of_union_l, elem_of_singleton; reflexivity);
      unfold Del, next_fault; simpl;
      (split; [reflexivity|]); (split; [reflexivity|]);
      first [apply lookup_delete_eq | apply lookup_insert_eq].
Qed.

(** ** Contexts *)

Lemma heartBeat_step_frame (rd : RedisDriver) (w w1 : World)
    (h h1 : HeartBeat) (ev : Event) :
  heartBeat_step rd w h ev = Some (h1, w1) ->
  cancelled w1 = cancelled w /\ next_ctx w1 = next_ctx w /\
  goroutines w1 = goroutines w.
Proof.
  unfold heartBeat_step, registerServiceNode, SetEx, Del.
  destruct h as [|period cx| |reason], ev; try discriminate.
  - destruct (NewTicker _); intros [= <- <-]; auto.
  - destruct (next_fault w) as [[e|] fs]; intros [= <- <-]; simpl; auto.
  - case_decide; [|discriminate].
    destruct (next_fault w) as [[e|] fs]; intros [= <- <-]; simpl; auto.
Qed.

Lemma Start_contexts (rd rd1 : RedisDriver) (w w1 : World) (ctx : Context)
    (r : option error) :
  started rd = false ->
  Start rd w ctx = (rd1, w1, r) ->
  rd1 = set_started true
          (set_runtime (Some (next_ctx w)) (Some (next_ctx w)) rd) /\
  cancelled w1 = cancelled w /\ next_ctx w1 = S (next_ctx w).
Proof.
  intros Hs. unfold Start. rewrite Hs.
  unfold registerServiceNode, SetEx, WithCancel. simpl.
  destruct (next_fault _) as [[e|] fs]; intros [= <- <- <-]; simpl; auto.
Qed.

Lemma perform_contexts_ok (a : Action) (rd rd1 : RedisDriver) (w w1 : World) :
  contexts_ok rd w -> perform a rd w = Some (rd1, w1) -> contexts_ok rd1 w1.
Proof.
  intros [Hc Hh]. destruct a as [name token opts|opt|ctx|ctx|i ev]; simpl.
  - destruct (Init rd name token opts) as [rd2|reason] eqn:Hi; [|discriminate].
    intros [= <- <-]. apply apply_options_frame in Hi. simpl in Hi.
    destruct Hi as (_ & _ & _ & _ & _ & Hrc). split; [exact Hc|].
    intros cx Hcx. apply Hh. congruence.
  - destruct (WithOption rd opt) as [[rd2 r]|reason] eqn:Hw; [|discriminate].
    intros [= <- <-]. apply WithOption_frame in Hw.
    destruct Hw as (_ & _ & _ & _ & _ & _ & Hrc). split; [exact Hc|].
    intros cx Hcx. apply Hh. congruence.
  - destruct (Start rd w ctx) as [[rd2 w2] r] eqn:Hst. intros [= <- <-].
    destruct (started rd) eqn:Hs.
    + unfold Start in Hst. rewrite Hs in Hst. injection Hst as <- <- <-.
      split; assumption.
    + destruct (Start_contexts _ _ _ _ _ _ Hs Hst) as (-> & Hcw & Hn).
      split.
      * intros x. rewrite Hcw, Hn. intros Hx. apply Hc in Hx. lia.
      * simpl. intros cx [= <-]. rewrite Hn. lia.
  - unfold Stop. destruct (runtimeCancel rd) as [cx|] eqn:Hcx; [|discriminate].
    intros [= <- <-]. split; simpl.
    + intros x. rewrite elem_of_union, elem_of_singleton.
      intros [->|Hx]; [apply Hh; reflexivity | apply Hc, Hx].
    + intros cx' Hcx'. apply Hh. congruence.
  - destruct (goroutines w !! i) as [h|]; [|discriminate].
    destruct (heartBeat_step rd w h ev) as [[h1 w2]|] eqn:Hstep; [|discriminate].
    intros [= <- <-]. apply heartBeat_step_frame in Hstep as (Hcw & Hn & _).
    split; simpl; rewrite ?Hcw, Hn; assumption.
Qed.

Lemma perform_all_contexts_ok (acts : list Action) (rd rd1 : RedisDriver)
    (w w1 : World) :
  contexts_ok rd w -> perform_all acts rd w = Some (rd1, w1) ->
  contexts_ok rd1 w1.
Proof.
  revert rd w. induction acts as [|a acts IH]; intros rd w Hok; simpl.
  - intros [= <- <-]. exact Hok.
  - destruct (perform a rd w) as [[rd2 w2]|] eqn:Hp; [|discriminate].
    apply IH. eapply perform_contexts_ok; eassumption.
Qed.

(** X10: after any run of actions from a state whose contexts are in
    order, a [Start] that is not turned down installs a context that no
    [Stop] has cancelled and that is not the one the driver held before. *)
Theorem Start_fresh_context (acts : list Action) (rd0 rd rd1 : RedisDriver)
    (w0 w w1 : World) (ctx : Context) (r : option error) :
  contexts_ok rd0 w0 ->
  perform_all acts rd0 w0 = Some (rd, w) ->
  started rd = false ->
  Start rd w ctx = (rd1, w1, r) ->
  exists cx : nat,
    runtimeCtx rd1 = Some cx /\ runtimeCancel rd1 = Some cx /\
    (cx ∉ cancelled w1) /\ runtimeCancel rd <> Some cx.
Proof.
  intros Hok0 Hrun Hs Hst.
  destruct (perform_all_contexts_ok _ _ _ _ _ Hok0 Hrun) as [Hc Hh].
  destruct (Start_contexts _ _ _ _ _ _ Hs Hst) as (-> & Hcw & Hn).
  exists (next_ctx w). simpl. repeat split.
  - rewrite Hcw. intros Hin. apply Hc in Hin. lia.
  - intros Hcx. apply Hh in Hcx. lia.
Qed.

(** X11: a goroutine outlives a quick restart.  When the driver is stopped
    and started again before the goroutine of the previous [Start] has
    taken its [Done] case, a tick makes that goroutine wait on the context
    of the new [Start]: its own context is cancelled, but the [Done] case
    is closed to it until the next [Stop]. *)
Theorem stale_goroutine_survives_restart (rd rd1 rd2 : RedisDriver)
    (w w1 w2 : World) (ctx ctx' : Context) (period : Z) (cx : nat)
    (r : option error) :
  contexts_ok rd w ->
  runtimeCancel rd = Some cx ->
  Stop rd w ctx = Returned (rd1, w1, r) ->
  Start rd1 w1 ctx' = (rd2, w2, None) ->
  exists (cx' : nat) (w3 : World),
    heartBeat_step rd2 w2 (HBSelect period cx) EvTick =
      Some (HBSelect period cx', w3) /\
    cx ∈ cancelled w3 /\ cx' <> cx /\
    heartBeat_step rd2 w3 (HBSelect period cx') EvDone = None.
Proof.
  intros [Hc Hh] Hcx. unfold Stop. rewrite Hcx. intros [= <- <- <-] Hst.
  pose proof (Start_contexts (set_started false rd) _ _ _ _ _ eq_refl Hst)
    as (-> & Hcw & Hn).
  simpl in Hcw, Hn.
  destruct (heartBeat_step
              (set_started true
                 (set_runtime (Some (next_ctx (cancel cx w)))
                    (Some (next_ctx (cancel cx w))) (set_started false rd)))
              w2 (HBSelect period cx) EvTick) as [[h w3]|] eqn:Hstep.
  2:{ unfold heartBeat_step in Hstep.
      destruct (registerServiceNode _ _); discriminate. }
  pose proof (heartBeat_step_frame _ _ _ _ _ _ Hstep) as (Hcw3 & _ & _).
  assert (Hh3 : h = HBSelect period (next_ctx w)).
  { unfold heartBeat_step in Hstep.
    destruct (registerServiceNode _ _). injection Hstep as <- _.
    reflexivity. }
  subst h. exists (next_ctx w), w3. split; [reflexivity|].
  assert (Hlt : cx < next_ctx w) by (apply Hh, Hcx).
  split; [|split].
  - rewrite Hcw3, Hcw. apply elem_of_union_l, elem_of_singleton. reflexivity.
  - lia.
  - unfold heartBeat_step. rewrite decide_False; [reflexivity|].
    rewrite Hcw3, Hcw, elem_of_union, elem_of_singleton.
    intros [Heq|Hin]; [lia | apply Hc in Hin; lia].
Qed.

(** ** The goroutine and the driver it reads *)

(** X12: no timeout is turned down by [WithOption], and one below two
    nanoseconds (zero and negative ones too) kills the goroutine: after a
    [Start] that registered, its first step asks for a ticker of a period
    that is not positive and panics. *)
Theorem tiny_timeout_panics (rd rd1 rd2 : RedisDriver) (w w1 : World)
    (ctx : Context) (t : Z) (r : option error) :
  (t < 2)%Z ->
  WithOption rd (commons.TimeoutOption t) = Returned (rd1, r) ->
  Start rd1 w ctx = (rd2, w1, None) ->
  heartBeat_step rd2 w1 HBSpawned EvRun =
    Some (HBPanicked non_positive_interval, w1).
Proof.
  intros Ht. unfold WithOption. simpl. rewrite decide_True by reflexivity.
  intros [= <- <-] Hst. apply Start_accepted in Hst as (_ & -> & _ & _).
  unfold heartBeat_step, NewTicker. simpl.
  assert (Hq : (Z.quot t 2 <= 0)%Z).
  { change 0%Z with (Z.quot 1 2). apply Z.quot_le_mono; lia. }
  destruct (Z.leb_spec (Z.quot t 2) 0) as [_|Hgt]; [reflexivity | lia].
Qed.

(** X13: a timeout option applied while the goroutine runs changes the time
    to live of the renewals that follow, not the pace of the ticker: the
    next tick writes the lease with the new timeout and goes back to the
    [select] with the period the ticker was made with. *)
Theorem retimed_while_running (rd rd1 : RedisDriver) (w : World) (t period : Z)
    (cx done : nat) (r : option error) :
  runtimeCtx rd = Some cx ->
  WithOption rd (commons.TimeoutOption t) = Returned (rd1, r) ->
  exists w1 : World,
    heartBeat_step rd1 w (HBSelect period done) EvTick =
      Some (HBSelect period cx, w1) /\
    cmds w1 = cmds w ++ [CmdSetEx (nodeID rd) (nodeID rd) t].
Proof.
  intros Hcx. unfold WithOption. simpl. rewrite decide_True by reflexivity.
  intros [= <- <-].
  unfold heartBeat_step, enter_select, registerServiceNode, SetEx. simpl.
  rewrite Hcx. destruct (next_fault w) as [[e|] fs]; eexists;
    (split; [reflexivity|]); reflexivity.
Qed.

(** X14: [Init] called again while the goroutine runs gives the goroutine
    another key to work on: when it sees the cancellation it removes the
    key of the new identity, and the lease written under the old identity
    is left in the store. *)
Theorem renamed_while_running (rd rd1 : RedisDriver) (w : World)
    (name token : string) (opts : list commons.Option) (period : Z)
    (cx : nat) :
  Init rd name token opts = Returned rd1 ->
  cx ∈ cancelled w ->
  GetNodeId name token <> nodeID rd ->
  exists w1 : World,
    heartBeat_step rd1 w (HBSelect period cx) EvDone =
      Some (HBReturned, w1) /\
    cmds w1 =
      cmds w ++ [CmdDel [GetNodeId name token; GetNodeId name token]] /\
    kv w1 !! nodeID rd = kv w !! nodeID rd.
Proof.
  intros Hi Hin Hne. unfold Init in Hi. apply apply_options_frame in Hi.
  simpl in Hi. destruct Hi as (_ & _ & Hid & _).
  unfold heartBeat_step. rewrite decide_True by exact Hin.
  unfold Del. rewrite Hid.
  destruct (next_fault w) as [[e|] fs]; eexists;
    (split; [reflexivity|]); simpl; (split; [reflexivity|]);
    [reflexivity|].
  rewrite !lookup_delete_ne by exact Hne. reflexivity.
Qed.

Lemma perform_goroutines_ok (a : Action) (rd rd1 : RedisDriver)
    (w w1 : World) :
  goroutines_ok rd w -> perform a rd w = Some (rd1, w1) ->
  goroutines_ok rd1 w1.
Proof.
  intros [Hc Hf]. destruct a as [name token opts|opt|ctx|ctx|i ev]; simpl.
  - destruct (Init rd name token opts) as [rd2|reason] eqn:Hi; [|discriminate].
    intros [= <- <-]. apply apply_options_frame in Hi. simpl in Hi.
    destruct Hi as (_ & _ & _ & _ & Hrc & _). split; [|exact Hf].
    rewrite Hrc. exact Hc.
  - destruct (WithOption rd opt) as [[rd2 r]|reason] eqn:Hw; [|discriminate].
    intros [= <- <-]. apply WithOption_frame in Hw.
    destruct Hw as (_ & _ & _ & _ & _ & Hrc & _). split; [|exact Hf].
    rewrite Hrc. exact Hc.
  - destruct (Start rd w ctx) as [[rd2 w2] r] eqn:Hst. intros [= <- <-].
    destruct (started rd) eqn:Hs.
    + unfold Start in Hst. rewrite Hs in Hst. injection Hst as <- <- <-.
      split; assumption.
    + pose proof (Start_goroutines _ _ _ _ _ _ Hst) as Hg.
      destruct (Start_contexts _ _ _ _ _ _ Hs Hst) as (-> & _ & _).
      split; [intros _; simpl; eauto|].
      rewrite Hg. apply Forall_app. split; [exact Hf|].
      destruct r; [constructor|]. repeat constructor. discriminate.
  - unfold Stop. destruct (runtimeCancel rd) as [cx|]; [|discriminate].
    intros [= <- <-]. split; assumption.
  - destruct (goroutines w !! i) as [h|] eqn:Hi; [|discriminate].
    destruct (heartBeat_step rd w h ev) as [[h1 w2]|] eqn:Hstep; [|discriminate].
    intros [= <- <-].
    pose proof (heartBeat_step_frame _ _ _ _ _ _ Hstep) as (_ & _ & Hg).
    assert (Hrun : is_Some (runtimeCtx rd)).
    { apply Hc. intros Hnil. rewrite Hnil in Hi. discriminate. }
    destruct Hrun as [cx Hcx]. split; [intros _; eauto|]. simpl.
    rewrite Hg. apply Forall_insert; [exact Hf|].
    revert Hstep. unfold heartBeat_step, enter_select. rewrite Hcx.
    destruct h as [|period done| |reason], ev; try discriminate.
    + destruct (NewTicker _); intros [= <- _]; discriminate.
    + destruct (registerServiceNode rd w). intros [= <- _]. discriminate.
    + case_decide; [|discriminate].
      destruct (Del _ _). intros [= <- _]. discriminate.
Qed.

(** X15: in every state a driver made by [NewDriver] can reach, no
    goroutine has died on a nil runtime context, and as soon as there is a
    goroutine the driver holds a runtime context for it to wait on. *)
Theorem goroutine_context_never_nil (rd : RedisDriver) (w : World) :
  reachable rd w ->
  (goroutines w <> [] -> is_Some (runtimeCtx rd)) /\
  Forall (fun h => h <> HBPanicked nil_dereference) (goroutines w).
Proof.
  induction 1 as [redisClient w Hg|a rd rd1 w w1 Hr IH Hp].
  - rewrite Hg. split; [congruence | constructor].
  - exact (perform_goroutines_ok _ _ _ _ _ IH Hp).
Qed.

Lemma perform_identity (a : Action) (rd rd1 : RedisDriver) (w w1 : World) :
  is_ActInit a = false -> perform a rd w = Some (rd1, w1) ->
  serviceName rd1 = serviceName rd /\ nodeID rd1 = nodeID rd.
Proof.
  destruct a as [name token opts|opt|ctx|ctx|i ev]; simpl; [discriminate|..];
    intros _.
  - destruct (WithOption rd opt) as [[rd2 r]|reason] eqn:Hw; [|discriminate].
    intros [= <- <-]. apply WithOption_frame in Hw.
    destruct Hw as (_ & _ & Hw2 & Hw3 & _). split; assumption.
  - destruct (Start rd w ctx) as [[rd2 w2] r] eqn:Hst. intros [= <- <-].
    unfold Start in Hst. destruct (started rd).
    + injection Hst as <- _ _. auto.
    + simpl in Hst. destruct (registerServiceNode _ _) as [[e|] w3];
        injection Hst as <- _ _; auto.
  - unfold Stop. destruct (runtimeCancel rd); [|discriminate].
    intros [= <- <-]. auto.
  - destruct (goroutines w !! i); [|discriminate].
    destruct (heartBeat_step rd w h ev) as [[h1 w2]|]; [|discriminate].
    intros [= <- <-]. auto.
Qed.

(** X16: only [Init] names the node: a run of actions with no [Init] among
    them, however many starts, stops, options and goroutine steps it has,
    leaves the service name and the identity as they were. *)
Theorem identity_kept (acts : list Action) (rd rd1 : RedisDriver)
    (w w1 : World) :
  existsb is_ActInit acts = false ->
  perform_all acts rd w = Some (rd1, w1) ->
  serviceName rd1 = serviceName rd /\ NodeID rd1 = NodeID rd.
Proof.
  unfold NodeID. revert rd w. induction acts as [|a acts IH]; intros rd w; simpl.
  - intros _ [= <- <-]. auto.
  - intros Hno. apply orb_false_iff in Hno as [Ha Hacts].
    destruct (perform a rd w) as [[rd2 w2]|] eqn:Hp; [|discriminate].
    intros Hrun. destruct (IH _ _ Hacts Hrun) as [-> ->].
    eapply perform_identity; eassumption.
Qed.

(** X17: the lease comes back after a renewal that failed.  When the store
    fails one renewal and takes the next, the first tick leaves the keys as
    they are and logs the error, and the second tick puts the lease in the
    store again, to live the seconds the client sends for the timeout,
    without a new [Start] and without a log entry. *)
Theorem renewal_recovers (rd : RedisDriver) (w : World) (period : Z)
    (cx : nat) (e : error) (fs : list (option error)) :
  runtimeCtx rd = Some cx ->
  faults w = Some e :: None :: fs ->
  exists w1 w2 : World,
    heartBeat_step rd w (HBSelect period cx) EvTick =
      Some (HBSelect period cx, w1) /\
    kv w1 = kv w /\
    logs w1 = logs w ++ [{| log_sink := logger rd;
                            log_format := "register service node error %+v";
                            log_arg := e |}] /\
    heartBeat_step rd w1 (HBSelect period cx) EvTick =
      Some (HBSelect period cx, w2) /\
    kv w2 = <[nodeID rd := (nodeID rd, formatSec (timeout rd))]> (kv w) /\
    logs w2 = logs w1.
Proof.
  intros Hcx Hf.
  unfold heartBeat_step, enter_select, registerServiceNode, SetEx, next_fault.
  rewrite Hcx, Hf. simpl. eexists _, _.
  repeat split; reflexivity.
Qed.

End Commons.

(** * The theorems at work *)

(** A whole life of the driver: made, named, started, one tick, stopped,
    cancellation seen.  The store ends up empty after two writes of the
    lease and one removal. *)
Example one_life :
  let run :=
    foldl (fun st a =>
             match st with
             | Some (rd, w) => perform kind_timeout kind_logger node_id a rd w
             | None => None
             end)
          (Some (NewDriver 0, empty_world))
          [ActInit "jobs" "node-1" [commons.TimeoutOption (4 * Second)];
           ActStart Background; ActWake 0 EvRun; ActWake 0 EvTick;
           ActStop Background; ActWake 0 EvDone] in
  match run with
  | Some (rd, w) =>
      started rd = false /\ nodeID rd = "jobs:node-1" /\
      goroutines w = [HBReturned] /\ kv w = ∅ /\
      cmds w = [CmdSetEx "jobs:node-1" "jobs:node-1" (4 * Second);
                CmdSetEx "jobs:node-1" "jobs:node-1" (4 * Second);
                CmdDel ["jobs:node-1"; "jobs:node-1"]]
  | None => False
  end.
Proof. vm_compute. repeat split; reflexivity. Qed.

(** C6, where it fails: with a timeout of one nanosecond, set through
    [WithOption], [Start] succeeds and the driver is marked started with
    its lease written, but the first step of the goroutine asks for a
    ticker of period 0 and panics: no timer fires and no tick is handled. *)
Lemma heartBeat_dies_on_tiny_timeout :
  let rd := set_timeout 1 node1 in
  let '(rd1, w1, r) := Start rd empty_world Background in
  WithOption kind_timeout kind_logger node1 (commons.TimeoutOption 1) =
    Returned (rd, None) /\
  r = None /\ started rd1 = true /\
  Z.quot (timeout rd1) 2 = 0%Z /\
  heartBeat_step rd1 w1 HBSpawned EvRun =
    Some (HBPanicked non_positive_interval, w1) /\
  heartBeat_step rd1 w1 (HBPanicked non_positive_interval) EvTick = None.
Proof. simpl. repeat split; reflexivity. Qed.

Lemma Start_running_rejected_witness :
  started running1.1.1 = true /\
  Start running1.1.1 running1.1.2 TODO =
    (running1.1.1, running1.1.2, Some ErrStarted).
Proof.
  split; [reflexivity | apply Start_running_rejected; reflexivity].
Defined.

Lemma Stop_nil_cancel_panics_witness :
  runtimeCancel (NewDriver 0) = None /\
  Stop (NewDriver 0) empty_world Background = Panicked nil_dereference.
Proof.
  split; [reflexivity | apply Stop_nil_cancel_panics; reflexivity].
Defined.

Lemma lease_write_witness :
  kv running1.1.2 !! "jobs:node-1" = Some ("jobs:node-1", 5%Z) /\
  (5 * Second <= timeout running1.1.1)%Z.
Proof.
  assert (Hs : (Second <= timeout running1.1.1)%Z)
    by (vm_compute; discriminate).
  destruct (lease_write node1 empty_world) as (_ & _ & Hstart).
  destruct (Hstart Background running1.1.1 running1.1.2 eq_refl)
    as (_ & _ & _ & _ & Hk & Hle & _).
  split; [exact Hk | exact (Hle Hs)].
Defined.

Lemma heartBeat_renews_witness :
  runtimeCtx running1.1.1 = Some 0 /\
  (0 < Z.quot (timeout running1.1.1) 2)%Z /\
  heartBeat_step running1.1.1 running1.1.2 HBSpawned EvRun =
    Some (HBSelect 2500000000 0, running1.1.2).
Proof.
  split; [reflexivity|]. split; [reflexivity|].
  destruct (heartBeat_renews running1.1.1 0 eq_refl eq_refl) as [Hrun _].
  apply Hrun.
Defined.

Lemma heartBeat_deregisters_witness :
  0 ∈ cancelled (cancel 0 running1.1.2) /\
  exists w1 : World,
    heartBeat_step running1.1.1 (cancel 0 running1.1.2)
      (HBSelect 2500000000 0) EvDone = Some (HBReturned, w1) /\
    cmds w1 =
      cmds (cancel 0 running1.1.2) ++
      [CmdDel ["jobs:node-1"; "jobs:node-1"]] /\
    logs w1 = [] /\
    kv w1 = delete "jobs:node-1" (kv running1.1.2).
Proof.
  assert (Hin : 0 ∈ cancelled (cancel 0 running1.1.2)).
  { apply elem_of_union_l, elem_of_singleton. reflexivity. }
  split; [exact Hin|].
  destruct (heartBeat_deregisters running1.1.1 _ 2500000000 0 Hin)
    as (w1 & Hstep & Hcmds & _ & Hlogs & Hkv & _).
  exists w1. split; [exact Hstep|]. split; [exact Hcmds|].
  split; [exact Hlogs | exact Hkv].
Defined.

Lemma options_applied_witness :
  kind_timeout <> kind_logger /\
  (exists rd1 : RedisDriver,
     WithOption kind_timeout kind_logger node1 (commons.TimeoutOption Second) =
       Returned (rd1, None) /\
     timeout rd1 = Second) /\
  (exists rd1 : RedisDriver,
     WithOption kind_timeout kind_logger node1
       (commons.LoggerOption (UserLogger 1)) = Returned (rd1, None) /\
     logger rd1 = UserLogger 1) /\
  WithOption kind_timeout kind_logger node1 (commons.OtherOption 7) =
    Returned (node1, None).
Proof.
  assert (Hne : kind_timeout <> kind_logger) by discriminate.
  destruct (options_applied kind_timeout kind_logger Hne 0 node1)
    as (_ & _ & Ht & Hl & Ho).
  split; [exact Hne|]. split; [|split].
  - destruct (Ht Second) as (rd1 & Hw & Htime & _). exists rd1. auto.
  - destruct (Hl (UserLogger 1)) as (rd1 & Hw & Hlog & _). exists rd1. auto.
  - apply (Ho (commons.OtherOption 7) 7%Z); [reflexivity | discriminate..].
Defined.

Lemma Start_Stop_Start_witness :
  reachable kind_timeout kind_logger node_id (NewDriver 0) store_down /\
  (Start (NewDriver 0) store_down Background).2 = Some refused /\
  is_Some (runtimeCancel (Start (NewDriver 0) store_down Background).1.1).
Proof.
  assert (Hr : reachable kind_timeout kind_logger node_id
                 (NewDriver 0) store_down).
  { apply reachable_new. reflexivity. }
  split; [exact Hr|]. split; [reflexivity|].
  destruct (Start_Stop_Start kind_timeout kind_logger node_id
              (NewDriver 0) _ store_down _ Background _ Hr eq_refl)
    as [Hsome _].
  exact Hsome.
Defined.

(** The extra theorems at work. *)

Lemma Init_sets_identity_witness :
  Init kind_timeout kind_logger node_id (NewDriver 0) "jobs" "node-1"
    [commons.TimeoutOption (4 * Second)] =
    Returned (set_timeout (4 * Second) node1) /\
  NodeID (set_timeout (4 * Second) node1) = "jobs:node-1".
Proof.
  assert (Hi : Init kind_timeout kind_logger node_id (NewDriver 0)
                 "jobs" "node-1" [commons.TimeoutOption (4 * Second)] =
               Returned (set_timeout (4 * Second) node1)) by reflexivity.
  split; [exact Hi|].
  destruct (Init_sets_identity kind_timeout kind_logger node_id
              _ _ _ _ _ Hi) as (_ & Hn & _).
  exact Hn.
Defined.

Lemma Init_last_option_wins_witness :
  exists rd1 : RedisDriver,
    Init kind_timeout kind_logger node_id (NewDriver 0) "jobs" "node-1"
      [commons.TimeoutOption Second; commons.LoggerOption (UserLogger 1);
       commons.OtherOption 7; commons.TimeoutOption (4 * Second)] =
      Returned rd1 /\
    timeout rd1 = (4 * Second)%Z /\ logger rd1 = UserLogger 1.
Proof.
  eexists. split; [reflexivity|].
  eapply (Init_last_option_wins kind_timeout kind_logger node_id
            (NewDriver 0) _ "jobs" "node-1"
            [commons.TimeoutOption Second; commons.LoggerOption (UserLogger 1);
             commons.OtherOption 7; commons.TimeoutOption (4 * Second)]).
  reflexivity.
Defined.

Lemma Init_returns_or_panics_witness :
  kind_timeout <> kind_logger /\
  Init kind_timeout kind_logger node_id (NewDriver 0) "jobs" "node-1"
    [commons.TimeoutOption Second; commons.OtherOption kind_logger] =
    Panicked interface_conversion /\
  Init kind_timeout kind_logger node_id (NewDriver 0) "jobs" "node-1"
    [commons.NilOption] = Panicked nil_dereference.
Proof.
  assert (Hne : kind_timeout <> kind_logger) by discriminate.
  split; [exact Hne|]. split.
  - exact (Init_returns_or_panics kind_timeout kind_logger node_id Hne
             (NewDriver 0) "jobs" "node-1"
             [commons.TimeoutOption Second; commons.OtherOption kind_logger]).
  - exact (Init_returns_or_panics kind_timeout kind_logger node_id Hne
             (NewDriver 0) "jobs" "node-1" [commons.NilOption]).
Defined.

Lemma GetNodes_keys_before_failure_witness :
  GetNodes (fun name => name +:+ ":") node1
    (with_scans
       (fun _ => [ScanPage ["jobs:node-1"]; ScanPage ["jobs:node-2"];
                  ScanFail refused; ScanPage ["jobs:node-3"]])
       empty_world) Background =
    Some (Some ["jobs:node-1"; "jobs:node-2"], None).
Proof.
  apply (GetNodes_keys_before_failure (fun name => name +:+ ":") node1
           (with_scans
              (fun _ => [ScanPage ["jobs:node-1"]; ScanPage ["jobs:node-2"];
                         ScanFail refused; ScanPage ["jobs:node-3"]])
              empty_world)
           Background [["jobs:node-1"]; ["jobs:node-2"]] refused
           [ScanPage ["jobs:node-3"]]).
  reflexivity.
Defined.

Lemma GetNodes_complete_witness :
  forallb is_ScanPage two_pages = true /\
  GetNodes (fun name => name +:+ ":") node1
    (with_scans (fun _ => two_pages) empty_world) Background =
    Some (Some ["jobs:node-1"; "jobs:node-2"], None).
Proof.
  split; [reflexivity|].
  apply (GetNodes_complete (fun name => name +:+ ":") node1
           (with_scans (fun _ => two_pages) empty_world) Background).
  reflexivity.
Defined.

Lemma Start_footprint_witness :
  Start node1 store_down Background =
    (set_started true (set_runtime (Some 0) (Some 0) node1),
     (Start node1 store_down Background).1.2, Some refused) /\
  goroutines (Start node1 store_down Background).1.2 = [] /\
  logs (Start node1 store_down Background).1.2 =
    [{| log_sink := StdLogger; log_format := "register service error=%v";
        log_arg := refused |}].
Proof.
  assert (Hst : Start node1 store_down Background =
                (set_started true (set_runtime (Some 0) (Some 0) node1),
                 (Start node1 store_down Background).1.2, Some refused))
    by reflexivity.
  split; [exact Hst|].
  destruct (Start_footprint _ _ _ _ _ _ Hst) as (Hg & Hl & _).
  split; [exact Hg | exact Hl].
Defined.

Lemma Stop_leaves_lease_witness :
  Start node1 empty_world Background =
    (running1.1.1, running1.1.2, None) /\
  exists (rd2 : RedisDriver) (w2 : World),
    Stop running1.1.1 running1.1.2 TODO = Returned (rd2, w2, None) /\
    kv w2 = kv running1.1.2 /\
    kv w2 !! "jobs:node-1" = Some ("jobs:node-1", 5%Z).
Proof.
  assert (Hst : Start node1 empty_world Background =
                (running1.1.1, running1.1.2, None)) by reflexivity.
  split; [exact Hst|].
  destruct (Stop_leaves_lease _ _ _ _ Background TODO Hst)
    as (rd2 & w2 & Hstop & _ & _ & Hkv & Hk & _).
  exists rd2, w2. split; [exact Hstop|]. split; [exact Hkv | exact Hk].
Defined.

Lemma Stop_twice_witness :
  Stop running1.1.1 running1.1.2 Background =
    Returned (set_started false running1.1.1, cancel 0 running1.1.2, None) /\
  Stop (set_started false running1.1.1) (cancel 0 running1.1.2) TODO =
    Returned (set_started false running1.1.1, cancel 0 running1.1.2, None).
Proof.
  assert (Hstop : Stop running1.1.1 running1.1.2 Background =
                  Returned (set_started false running1.1.1,
                            cancel 0 running1.1.2, None)) by reflexivity.
  split; [exact Hstop|].
  exact (Stop_twice _ _ _ _ Background TODO _ Hstop).
Defined.

Lemma Start_Stop_deregisters_witness :
  Start node1 empty_world Background =
    (running1.1.1, running1.1.2, None) /\
  (0 < Z.quot (timeout node1) 2)%Z /\
  heartBeat_step running1.1.1 running1.1.2 HBSpawned EvRun =
    Some (HBSelect (Z.quot (timeout node1) 2) (next_ctx empty_world),
          running1.1.2).
Proof.
  assert (Hst : Start node1 empty_world Background =
                (running1.1.1, running1.1.2, None)) by reflexivity.
  assert (Hpos : (0 < Z.quot (timeout node1) 2)%Z) by reflexivity.
  split; [exact Hst|]. split; [exact Hpos|].
  destruct (Start_Stop_deregisters _ _ _ _ Background TODO Hst Hpos)
    as [Hrun _].
  exact Hrun.
Defined.

Lemma contexts_ok_new : contexts_ok (NewDriver 0) empty_world.
Proof.
  split.
  - intros x Hx. exfalso. revert Hx. apply not_elem_of_empty.
  - intros cx. discriminate.
Defined.

Lemma contexts_ok_running : contexts_ok running1.1.1 running1.1.2.
Proof.
  split.
  - intros x Hx. exfalso. revert Hx. apply not_elem_of_empty.
  - intros cx [= <-]. apply Nat.lt_0_1.
Defined.

Lemma Start_fresh_context_witness :
  contexts_ok (NewDriver 0) empty_world /\
  exists (rd : RedisDriver) (w : World),
    perform_all kind_timeout kind_logger node_id
      [ActInit "jobs" "node-1" []; ActStart Background; ActStop Background]
      (NewDriver 0) empty_world = Some (rd, w) /\
    started rd = false /\
    exists cx : nat,
      runtimeCtx (Start rd w Background).1.1 = Some cx /\
      cx ∉ cancelled (Start rd w Background).1.2.
Proof.
  split; [exact contexts_ok_new|].
  eexists _, _. split; [reflexivity|]. split; [reflexivity|].
  destruct (Start_fresh_context kind_timeout kind_logger node_id
              [ActInit "jobs" "node-1" []; ActStart Background;
               ActStop Background]
              (NewDriver 0) _ _ empty_world _ _ Background _
              contexts_ok_new eq_refl eq_refl eq_refl)
    as (cx & Hctx & _ & Hfresh & _).
  exists cx. split; [exact Hctx | exact Hfresh].
Defined.

Lemma stale_goroutine_survives_restart_witness :
  contexts_ok running1.1.1 running1.1.2 /\
  runtimeCancel running1.1.1 = Some 0 /\
  exists (cx' : nat) (w3 : World),
    heartBeat_step
      (Start (set_started false running1.1.1) (cancel 0 running1.1.2) TODO).1.1
      (Start (set_started false running1.1.1) (cancel 0 running1.1.2) TODO).1.2
      (HBSelect 2500000000 0) EvTick =
      Some (HBSelect 2500000000 cx', w3) /\
    0 ∈ cancelled w3 /\ cx' <> 0.
Proof.
  split; [exact contexts_ok_running|]. split; [reflexivity|].
  destruct (stale_goroutine_survives_restart
              running1.1.1 _ _ running1.1.2 _ _ Background TODO
              2500000000 0 _ contexts_ok_running eq_refl eq_refl eq_refl)
    as (cx' & w3 & Hstep & Hin & Hne & _).
  exists cx', w3. split; [exact Hstep|]. split; [exact Hin | exact Hne].
Defined.

Lemma tiny_timeout_panics_witness :
  (1 < 2)%Z /\
  WithOption kind_timeout kind_logger node1 (commons.TimeoutOption 1) =
    Returned (set_timeout 1 node1, None) /\
  heartBeat_step
    (Start (set_timeout 1 node1) empty_world Background).1.1
    (Start (set_timeout 1 node1) empty_world Background).1.2
    HBSpawned EvRun =
    Some (HBPanicked non_positive_interval,
          (Start (set_timeout 1 node1) empty_world Background).1.2).
Proof.
  split; [reflexivity|]. split; [reflexivity|].
  exact (tiny_timeout_panics kind_timeout kind_logger node1 _ _ empty_world _
           Background 1 None eq_refl eq_refl eq_refl).
Defined.

Lemma retimed_while_running_witness :
  runtimeCtx running1.1.1 = Some 0 /\
  exists w1 : World,
    heartBeat_step (set_timeout Second running1.1.1) running1.1.2
      (HBSelect 2500000000 0) EvTick = Some (HBSelect 2500000000 0, w1) /\
    cmds w1 =
      cmds running1.1.2 ++ [CmdSetEx "jobs:node-1" "jobs:node-1" Second].
Proof.
  split; [reflexivity|].
  exact (retimed_while_running kind_timeout kind_logger running1.1.1 _
           running1.1.2 Second 2500000000 0 0 None eq_refl eq_refl).
Defined.

Lemma renamed_while_running_witness :
  Init kind_timeout kind_logger node_id running1.1.1 "jobs" "node-2" [] =
    Returned (set_identity "jobs" "jobs:node-2" running1.1.1) /\
  0 ∈ cancelled (cancel 0 running1.1.2) /\
  node_id "jobs" "node-2" <> nodeID running1.1.1 /\
  exists w1 : World,
    heartBeat_step (set_identity "jobs" "jobs:node-2" running1.1.1)
      (cancel 0 running1.1.2) (HBSelect 2500000000 0) EvDone =
      Some (HBReturned, w1) /\
    kv w1 !! "jobs:node-1" = Some ("jobs:node-1", 5%Z).
Proof.
  assert (Hin : 0 ∈ cancelled (cancel 0 running1.1.2)).
  { apply elem_of_union_l, elem_of_singleton. reflexivity. }
  assert (Hne : node_id "jobs" "node-2" <> nodeID running1.1.1)
    by discriminate.
  split; [reflexivity|]. split; [exact Hin|]. split; [exact Hne|].
  destruct (renamed_while_running kind_timeout kind_logger node_id
              running1.1.1 _ (cancel 0 running1.1.2) "jobs" "node-2" []
              2500000000 0 eq_refl Hin Hne)
    as (w1 & Hstep & _ & Hk).
  exists w1. split; [exact Hstep|]. exact (eq_trans Hk eq_refl).
Defined.

Lemma goroutine_context_never_nil_witness :
  reachable kind_timeout kind_logger node_id
    (Start (NewDriver 0) empty_world Background).1.1
    (Start (NewDriver 0) empty_world Background).1.2 /\
  is_Some (runtimeCtx (Start (NewDriver 0) empty_world Background).1.1).
Proof.
  assert (Hr : reachable kind_timeout kind_logger node_id
                 (Start (NewDriver 0) empty_world Background).1.1
                 (Start (NewDriver 0) empty_world Background).1.2).
  { apply (reachable_step kind_timeout kind_logger node_id
             (ActStart Background) (NewDriver 0) _ empty_world _).
    - apply reachable_new. reflexivity.
    - reflexivity. }
  split; [exact Hr|].
  destruct (goroutine_context_never_nil kind_timeout kind_logger node_id
              _ _ Hr) as [Hctx _].
  apply Hctx. discriminate.
Defined.

Lemma identity_kept_witness :
  exists (rd1 : RedisDriver) (w1 : World),
    perform_all kind_timeout kind_logger node_id
      [ActStart Background; ActWithOption (commons.TimeoutOption Second);
       ActWake 0 EvRun; ActStop Background; ActWake 0 EvDone]
      node1 empty_world = Some (rd1, w1) /\
    NodeID rd1 = "jobs:node-1".
Proof.
  eexists _, _. split; [reflexivity|].
  eapply (identity_kept kind_timeout kind_logger node_id
            [ActStart Background; ActWithOption (commons.TimeoutOption Second);
             ActWake 0 EvRun; ActStop Background; ActWake 0 EvDone]
            node1 _ empty_world _ eq_refl eq_refl).
Defined.

Lemma renewal_recovers_witness :
  runtimeCtx running1.1.1 = Some 0 /\
  exists w1 w2 : World,
    heartBeat_step running1.1.1
      (with_faults [Some refused; None] running1.1.2)
      (HBSelect 2500000000 0) EvTick = Some (HBSelect 2500000000 0, w1) /\
    heartBeat_step running1.1.1 w1 (HBSelect 2500000000 0) EvTick =
      Some (HBSelect 2500000000 0, w2) /\
    kv w2 = <["jobs:node-1" := ("jobs:node-1", 5%Z)]> (kv running1.1.2).
Proof.
  split; [reflexivity|].
  destruct (renewal_recovers running1.1.1
              (with_faults [Some refused; None] running1.1.2)
              2500000000 0 refused [] eq_refl eq_refl)
    as (w1 & w2 & Hs1 & _ & _ & Hs2 & Hk & _).
  exists w1, w2. split; [exact Hs1|]. split; [exact Hs2 | exact Hk].
Defined.

